(** * Supreme-court case scraper: a shallow embedding of [main.py]

    The pure parts of the scraper (CAPTCHA arithmetic, header and table
    normalisation, the order key of downloaded PDFs) are embedded as
    functions; the parts that talk to the browser, the OCR service and the
    database are embedded as functions of an explicit record of what those
    collaborators answer, and produce the log of what the code did.

    Python [str] values are lists of characters.  A character is a code
    point below 256 (the Latin-1 range), and the character classes of
    Python ([str.isspace], [\s], [\w], [str.lower]) are given on that range. *)

From Stdlib Require Import Ascii String ZArith Lia Sorting.Sorted Sorting.Permutation.
From stdpp Require Import gmap strings list.
From Equations Require Import Equations.

Local Open Scope Z_scope.
Local Open Scope list_scope.

(** ** Python strings *)

Module PyStr.

Abbreviation str := (list ascii).

(** A string literal as a Python string. *)
Definition chars (s : string) : str := list_ascii_of_string s.

Definition code (c : ascii) : N := N_of_ascii c.

Definition in_range (lo hi : N) (c : ascii) : bool :=
  ((lo <=? code c) && (code c <=? hi))%N.

(** [str.isspace] on one character; the same class is [\s] of [re] and the
    set removed by [str.strip()] without argument. *)
Definition py_isspace (c : ascii) : bool :=
  in_range 9 13 c || in_range 28 32 c || (code c =? 133)%N || (code c =? 160)%N.

Definition is_digit (c : ascii) : bool := in_range 48 57 c.
Definition is_upper_az (c : ascii) : bool := in_range 65 90 c.
Definition is_lower_az (c : ascii) : bool := in_range 97 122 c.

(** [\w] of [re] on a [str] pattern: alphanumeric in the sense of
    [str.isalnum], or the underscore. *)
Definition is_word (c : ascii) : bool :=
  is_digit c || is_upper_az c || is_lower_az c || (code c =? 95)%N
  || (code c =? 170)%N || (code c =? 178)%N || (code c =? 179)%N
  || (code c =? 181)%N || (code c =? 185)%N || (code c =? 186)%N
  || in_range 188 190 c || in_range 192 214 c || in_range 216 246 c
  || in_range 248 255 c.

(** [str.lower] on one character of the range below 256, where it gives
    one character of that range again; on characters beyond it, which
    these strings do not hold, it can give two. *)
Definition lower_char (c : ascii) : ascii :=
  if is_upper_az c || in_range 192 214 c || in_range 216 222 c
  then ascii_of_N (code c + 32) else c.

Definition py_lower (s : str) : str := map lower_char s.

Definition eqc (a b : ascii) : bool := (code a =? code b)%N.

(** [x in s] for a one-character [x]. *)
Definition contains_char (c : ascii) (s : str) : bool := existsb (eqc c) s.

(** [s.strip()] *)
Fixpoint lstrip_by (p : ascii -> bool) (s : str) : str :=
  match s with
  | c :: s' => if p c then lstrip_by p s' else s
  | [] => []
  end.

Definition rstrip_by (p : ascii -> bool) (s : str) : str :=
  rev (lstrip_by p (rev s)).

Definition strip_by (p : ascii -> bool) (s : str) : str :=
  rstrip_by p (lstrip_by p s).

Definition py_strip (s : str) : str := strip_by py_isspace s.

(** The text is not empty and its first character is not one that [p]
    strips. *)
Definition starts_firm (p : ascii -> bool) (s : str) : Prop :=
  match s with c :: _ => p c = false | [] => False end.

(** A non-empty text that [strip] leaves as it is. *)
Definition trimmed (p : ascii -> bool) (s : str) : Prop :=
  starts_firm p s /\ starts_firm p (rev s).

(** [s.startswith(p)] *)
Fixpoint startswith (p s : str) : bool :=
  match p, s with
  | [], _ => true
  | a :: p', b :: s' => eqc a b && startswith p' s'
  | _ :: _, [] => false
  end.

(** [s.split(sep)] for a non-empty separator: the pieces between the
    occurrences of [sep], found from left to right without overlap.
    [cur] holds the characters of the current piece, last one first. *)
Equations? split_from (sep : str) (cur : str) (s : str) : list str
  by wf (length s) lt :=
  split_from sep cur [] := [rev cur];
  split_from sep cur (c :: s') with startswith sep (c :: s'), length sep := {
    | true, S n := rev cur :: split_from sep [] (skipn n s');
    | true, O := [rev (c :: cur) ++ s'];
    | false, _ := split_from sep (c :: cur) s' }.
Proof. all: cbn; try rewrite length_skipn; lia. Qed.

Definition py_split (sep s : str) : list str := split_from sep [] s.

(** [s.replace(old, new)] for a non-empty [old]. *)
Equations? py_replace (old new : str) (s : str) : str
  by wf (length s) lt :=
  py_replace old new [] := [];
  py_replace old new (c :: s') with startswith old (c :: s'), length old := {
    | true, S n := new ++ py_replace old new (skipn n s');
    | true, O := c :: s';
    | false, _ := c :: py_replace old new s' }.
Proof. all: cbn; try rewrite length_skipn; lia. Qed.

(** [seq[-1]] of a list that [split] returned (never empty). *)
Definition last_piece (l : list str) : str := List.last l [].

(** *** [int(s)] in base 10

    Surrounding white space is ignored, one sign is allowed, and the digits
    may be separated by single underscores.  The white space of [int] is
    that of [str.isspace] without the four separators 28 to 31.  The limit
    that recent interpreters put on the number of digits is not modelled. *)

Definition int_isspace (c : ascii) : bool :=
  in_range 9 13 c || (code c =? 32)%N || (code c =? 133)%N || (code c =? 160)%N.

Definition digit_val (c : ascii) : option Z :=
  if is_digit c then Some (Z.of_N (code c) - 48) else None.

Fixpoint digits_loop (acc : Z) (s : str) : option Z :=
  match s with
  | [] => Some acc
  | c :: s' =>
      match digit_val c with
      | Some d => digits_loop (10 * acc + d) s'
      | None =>
          if eqc c "_" then
            match s' with
            | c' :: s'' =>
                match digit_val c' with
                | Some d => digits_loop (10 * acc + d) s''
                | None => None
                end
            | [] => None
            end
          else None
      end
  end.

Definition parse_unsigned (s : str) : option Z :=
  match s with
  | c :: s' =>
      match digit_val c with
      | Some d => digits_loop d s'
      | None => None
      end
  | [] => None
  end.

Definition py_int (s : str) : option Z :=
  match strip_by int_isspace s with
  | c :: r =>
      if eqc c "+" then parse_unsigned r
      else if eqc c "-" then Z.opp <$> parse_unsigned r
      else parse_unsigned (c :: r)
  | [] => None
  end.

(** [repr(s)] of a string without quotes, backslashes or control
    characters.  Only the fixed head of the messages built from it is ever
    inspected by the program. *)
Definition py_repr (s : str) : str := chars "'" ++ s ++ chars "'".

End PyStr.

Import PyStr.

(** Pattern matching on a value while keeping the equation, for the
    termination arguments below. *)
Definition inspect {A : Type} (x : A) : {y : A | x = y} := exist _ x eq_refl.

(** ** The CAPTCHA solver and its retry controller *)

Module Captcha.

(** Exceptions, with the text that [str(e)] gives. *)
Inductive py_exc :=
| ValueError (msg : str)
| TypeError (msg : str)
| Exception (msg : str).

Definition exc_str (e : py_exc) : str :=
  match e with ValueError m | TypeError m | Exception m => m end.

(** What [solve_expression] returns: an [int], or the [str] of its
    [except] branch. *)
Inductive solve_result :=
| SInt (z : Z)
| SStr (msg : str).

(** The [try] block of [solve_expression]. *)
Definition solve_try (text : str) : py_exc + Z :=
  let plus := contains_char "+" text in
  let parts := if plus then py_split (chars "+") text else py_split (chars "-") text in
  let operator := if plus then "+"%char else "-"%char in
  let operands := map py_strip parts in
  if negb (length operands =? 2)%nat
  then inl (ValueError (chars "Invalid expression format"))
  else
    match operands with
    | [a; b] =>
        match py_int a with
        | None => inl (ValueError (chars "invalid literal for int() with base 10: " ++ py_repr a))
        | Some operand1 =>
            match py_int b with
            | None => inl (ValueError (chars "invalid literal for int() with base 10: " ++ py_repr b))
            | Some operand2 =>
                inr (if eqc operator "+" then operand1 + operand2 else operand1 - operand2)
            end
        end
    | _ => inl (ValueError (chars "not enough values to unpack"))
    end.

Definition solve_expression (text : str) : solve_result :=
  match solve_try text with
  | inr result => SInt result
  | inl e => SStr (chars "Error evaluating expression: " ++ exc_str e)
  end.

(** [isinstance(result, str) and result.startswith("Error evaluating expression")] *)
Definition is_parse_failure (result : solve_result) : bool :=
  match result with
  | SStr msg => startswith (chars "Error evaluating expression") msg
  | SInt _ => false
  end.

(** The record that [process_table] assembles for a case; its content is
    not looked at by the code embedded here, only the [year] that the
    driver adds before it stores the record. *)
Record case_data := { cd_details : list (string * str); cd_year : option Z }.

(** What a case lookup returns. *)
Inductive py_value :=
| PNone
| PFalse
| PData (d : case_data).

(** One step of browser automation: done, or an exception with its text. *)
Inductive step :=
| Done
| Raises (msg : str).

(** Locating the result table and running [process_table] on it. *)
Inductive table_step :=
| TableRaises (msg : str)
| TableReturns (v : option case_data).

(** What the page and the OCR service answer during one attempt. *)
Record attempt_obs := {
  captcha_image : step;     (* the image element is found and its screenshot taken *)
  ocr_text : str;           (* extract_text_from_image, which never raises *)
  refresh : step;           (* the refresh button is found and clicked *)
  submit : step;            (* the answer is typed and the search submitted *)
  notfound_visible : bool;  (* the not-found block shows within three seconds *)
  results : table_step
}.

(** The answers, by attempt number. *)
Definition world := nat -> attempt_obs.

Inductive event :=
| ImageRead (attempt : nat) (text : str)
| LogInfoResult (result : solve_result)
| LogError (msg : str)
| RefreshClick
| SubmitAnswer (answer : solve_result).

(** Arguments of a call, as written at the call site. *)
Inductive py_arg :=
| ArgStr (s : string)
| ArgLocator (by_ value : string).

Inductive condition :=
| VisibilityOf (by_ value : string).

(** [EC.visibility_of_element_located(locator)] of selenium takes one
    argument, the locator pair; any other number of positional arguments is
    a [TypeError] at the call. *)
Definition visibility_of_element_located (args : list py_arg) : py_exc + condition :=
  match args with
  | [ArgLocator b v] => inr (VisibilityOf b v)
  | _ => inl (TypeError (chars "visibility_of_element_located() takes 1 positional argument"))
  end.

Definition default_max_attempts : nat := 20.

(** Number of further entries that can still read an image. *)
Definition retry_budget (attempt max_attempts : nat) : nat :=
  if (max_attempts <=? attempt)%nat then 0%nat
  else S (default_max_attempts - S attempt).

(** The [except Exception as e] of [retry_captcha_process]: the error is
    logged and the function ends without a [return]. *)
Definition caught (msg : str) : py_value * list event :=
  (PNone, [LogError (chars "Error in retry_captcha_process: " ++ msg)]).

(** After the search was submitted (the inner [try]). *)
Definition after_submit (o : attempt_obs) : py_value * list event :=
  let look :=
    match results o with
    | TableReturns (Some d) => (PData d, [])
    | TableReturns None => (PNone, [])
    | TableRaises msg => (PNone, [LogError (chars "Error after form submission: " ++ msg)])
    end in
  match visibility_of_element_located
          [ArgStr "xpath"; ArgStr "//div[@class='notfound']"] with
  | inr _ => if notfound_visible o then (PFalse, []) else look
  | inl _ => look
  end.

(** The body of [retry_captcha_process] once the bound is passed.
    [retried] is what the recursive call gives; its value is dropped, since
    the call is a statement and no [return] follows it. *)
Definition attempt_body (o : attempt_obs) (attempt : nat)
    (retried : py_value * list event) : py_value * list event :=
  match captcha_image o with
  | Raises msg => caught msg
  | Done =>
      let result := solve_expression (ocr_text o) in
      let seen := [ImageRead attempt (ocr_text o); LogInfoResult result] in
      if is_parse_failure result then
        let retrying :=
          seen ++ [LogError (chars "Failed to parse expression. Retrying CAPTCHA process...")] in
        match refresh o with
        | Raises msg => (PNone, retrying ++ snd (caught msg))
        | Done => (PNone, retrying ++ [RefreshClick] ++ snd retried)
        end
      else
        match submit o with
        | Raises msg => (PNone, seen ++ snd (caught msg))
        | Done =>
            (fst (after_submit o), seen ++ [SubmitAnswer result] ++ snd (after_submit o))
        end
  end.

(** The bound is reached: the error is logged and raised, and the
    function's own handler catches it. *)
Definition max_attempts_reached : py_exc :=
  Exception (chars "Max CAPTCHA attempts reached. Please try again.").

Definition exhausted : py_value * list event :=
  (PNone,
   LogError (chars "Max CAPTCHA attempts reached. Exiting process.")
   :: snd (caught (exc_str max_attempts_reached))).

(** [retry_captcha_process(driver, wait, attempt, max_attempts)]: the value
    returned and the events in order.  The recursive call passes
    [attempt + 1] and leaves [max_attempts] to its default. *)
Equations? retry_captcha_process (w : world) (attempt max_attempts : nat)
  : py_value * list event by wf (retry_budget attempt max_attempts) lt :=
  retry_captcha_process w attempt max_attempts with inspect (max_attempts <=? attempt)%nat := {
    | exist _ true _ := exhausted;
    | exist _ false Hlt :=
        attempt_body (w attempt) attempt
          (retry_captcha_process w (S attempt) default_max_attempts) }.
Proof.
  unfold retry_budget, default_max_attempts. rewrite Hlt.
  destruct (20 <=? S attempt)%nat eqn:E; [lia|].
  apply Nat.leb_gt in E. lia.
Qed.

(** [process_case_details_by_diary_number] once the form is filled in:
    the first entry, with both defaults. *)
Definition case_lookup (w : world) : py_value * list event :=
  retry_captcha_process w 0 default_max_attempts.

Definition is_image_read (e : event) : bool :=
  match e with ImageRead _ _ => true | _ => false end.

Definition image_reads (evs : list event) : nat :=
  length (List.filter is_image_read evs).

(** The attempt numbers of the image reads, in order. *)
Definition read_attempts (evs : list event) : list nat :=
  flat_map (fun e => match e with ImageRead n _ => [n] | _ => [] end) evs.

(** The text splits into two pieces around [op], and both pieces, once
    stripped, are integers [x] and [y]. *)
Definition two_operands (op : ascii) (text : str) (x y : Z) : Prop :=
  exists a b, py_split [op] text = [a; b]
              /\ py_int (py_strip a) = Some x /\ py_int (py_strip b) = Some y.

(** Every attempt up to the default bound gets its image, reads a text
    that does not parse, and gets a fresh image on request. *)
Definition always_parse_failure (w : world) : Prop :=
  forall n, (n < default_max_attempts)%nat ->
    captcha_image (w n) = Done
    /\ is_parse_failure (solve_expression (ocr_text (w n))) = true
    /\ refresh (w n) = Done.

Definition parse_failure_logged : event :=
  LogError (chars "Failed to parse expression. Retrying CAPTCHA process...").

(** An attempt whose text is [text] and where every step of the page
    works; the search ends as [r] says. *)
Definition smooth (text : string) (notfound : bool) (r : table_step) : attempt_obs :=
  {| captcha_image := Done; ocr_text := chars text; refresh := Done; submit := Done;
     notfound_visible := notfound; results := r |}.

(** The OCR text never parses. *)
Definition unreadable : world :=
  fun _ => smooth "12 * 7" false (TableRaises (chars "timeout")).

(** The first text does not parse, the second does and the case is found. *)
Definition second_time_lucky (d : case_data) : world :=
  fun n => match n with
           | O => smooth "12 * 7" false (TableReturns (Some d))
           | _ => smooth "12 + 7" false (TableReturns (Some d))
           end.

(** The CAPTCHA is solved at once and the page then shows its not-found
    block; no result table ever appears. *)
Definition case_not_found : world :=
  fun _ => smooth "12 + 7" true (TableRaises (chars "timeout")).

(** The CAPTCHA is solved at once, the not-found block does not show, and
    reading the result table fails. *)
Definition extraction_fails : world :=
  fun _ => smooth "12 + 7" false (TableRaises (chars "timeout")).

End Captcha.

(** ** Header normalisation *)

Module Header.

(** A pattern, as the function that matches it at the start of a text:
    given the character before the text (none at the start of the string)
    it answers the length of the match, if there is one.  None of the
    patterns below matches the empty string. *)
Definition matcher := option ascii -> str -> option nat.

(** [re.sub(pattern, repl, s)]: the leftmost match is replaced and the
    scan goes on after it. *)
Equations? re_sub (m : matcher) (repl : str) (prev : option ascii) (s : str) : str
  by wf (length s) lt :=
  re_sub m repl prev [] := [];
  re_sub m repl prev (c :: s') with m prev (c :: s') := {
    | Some (S n) := repl ++ re_sub m repl (last (c :: firstn n s')) (skipn n s');
    | _ := c :: re_sub m repl (Some c) s' }.
Proof. all: cbn; try rewrite length_skipn; lia. Qed.

(** [re.search(pattern, s) is not None] *)
Fixpoint re_search (m : matcher) (prev : option ascii) (s : str) : bool :=
  match s with
  | [] => false
  | c :: s' =>
      match m prev s with
      | Some (S _) => true
      | _ => re_search m (Some c) s'
      end
  end.

Definition space_run (s : str) : nat := length s - length (lstrip_by py_isspace s).

(** [\s*/\s*] *)
Definition m_slash : matcher := fun _ s =>
  match lstrip_by py_isspace s with
  | c :: r => if eqc c "/" then Some (space_run s + 1 + space_run r)%nat else None
  | [] => None
  end.

Definition is_n (c : ascii) : bool := eqc c "n" || eqc c "N".
Definition is_o (c : ascii) : bool := eqc c "o" || eqc c "O".

Definition word_at (c : option ascii) : bool :=
  match c with Some c => is_word c | None => false end.

(** [\b] between two neighbouring positions. *)
Definition boundary (before after : option ascii) : bool :=
  xorb (word_at before) (word_at after).

(** [\bno\.?\b] with [re.IGNORECASE]: the dot is taken when the match can
    be completed after it, and left out otherwise. *)
Definition m_no : matcher := fun prev s =>
  match s with
  | n :: o :: r =>
      if is_n n && is_o o && boundary prev (Some n) then
        match r with
        | d :: r' =>
            if eqc d "." && boundary (Some d) (head r') then Some 3%nat
            else if boundary (Some o) (Some d) then Some 2%nat
            else None
        | [] => Some 2%nat
        end
      else None
  | _ => None
  end.

(** Characters of [[a-z0-9|_ ]]. *)
Definition kept (c : ascii) : bool :=
  is_lower_az c || is_digit c || eqc c "|" || eqc c "_" || eqc c " ".

(** [[^a-z0-9|_ ]] *)
Definition m_other : matcher := fun _ s =>
  match s with
  | c :: _ => if kept c then None else Some 1%nat
  | [] => None
  end.

Definition is_underscore (c : ascii) : bool := eqc c "_".

(** [_+] *)
Definition m_underscores : matcher := fun _ s =>
  match length s - length (lstrip_by is_underscore s) with
  | O => None
  | n => Some n
  end%nat.

(** [header.replace(" ", "_")] *)
Definition spaces_to_underscores (s : str) : str :=
  map (fun c => if eqc c " " then "_"%char else c) s.

Definition clean_header (header : str) : str :=
  let header := re_sub m_slash (chars "_|_") None header in
  let header := re_sub m_no (chars "number") None header in
  let header := py_lower header in
  let header := re_sub m_other [] None header in
  let header := spaces_to_underscores header in
  let header := re_sub m_underscores (chars "_") None header in
  let header := strip_by is_underscore header in
  header.

Definition clean_headers (headers : list str) : list str := map clean_header headers.

(** The characters of a cleaned header: [[a-z0-9|_]]. *)
Definition canonical_char (c : ascii) : bool := kept c && negb (eqc c " ").

(** No underscore follows an underscore. *)
Fixpoint single_underscores (s : str) : bool :=
  match s with
  | a :: (b :: _) as t => negb (is_underscore a && is_underscore b) && single_underscores t
  | _ => true
  end.

(** The text does not start with an underscore. *)
Definition no_underscore_first (s : str) : bool :=
  match s with c :: _ => negb (is_underscore c) | [] => true end.

End Header.

(** ** Table extraction and normalisation *)

Module Table.

Import Header.

(** An HTML cell, as the text nodes below it in document order. *)
Definition cell := list str.

Definition nonempty {A} (l : list A) : bool :=
  match l with [] => false | _ => true end.

(** [element.get_text(strip=True)]: every text node is stripped, the empty
    ones are left out and the others joined without separator. *)
Definition get_text_strip (c : cell) : str :=
  concat (List.filter nonempty (map py_strip c)).

(** What [find] and [find_all] give on the table that is read: the [th] and
    the [td] elements of its [thead], and the [td] elements of each [tr] of
    its [tbody]; a missing part is [None]. *)
Record html_head := { head_th : list cell; head_td : list cell }.
Record html_table := { thead : option html_head; tbody : option (list (list cell)) }.

(** The dictionary [{"header": ..., "rows": ...}]; a key may be absent. *)
Record table_data := {
  d_header : option (list str);
  d_rows : option (list (list str))
}.

Definition texts (cells : list cell) : list str :=
  List.filter nonempty (map get_text_strip cells).

(** The body of [extract_table_data] from its second line on, on the
    inner table that the first line has located.  [None] stands for the
    [AttributeError] of a missing [thead], which [extract_table_details]
    turns into its [None] result; the first line and the exception itself
    are in [Soup.extract_table_data]. *)
Definition extract_table_data (table : html_table) : option table_data :=
  match thead table with
  | None => None
  | Some h =>
      let header := texts (head_th h) in
      let header := if nonempty header then header else texts (head_td h) in
      let rows :=
        match tbody table with
        | Some trs => List.filter nonempty (map texts trs)
        | None => []
        end in
      Some {| d_header := Some header; d_rows := Some rows |}
  end.

(** A normalised record: a dictionary from cleaned header to cell text or
    [None]. *)
Abbreviation record := (gmap str (option str)).

(** [{k: v for k, v in pairs}]: a later pair with the same key replaces the
    value of an earlier one. *)
Definition dict_of (pairs : list (str * option str)) : record :=
  foldl (fun d kv => <[kv.1 := kv.2]> d) ∅ pairs.

(** [cell.strip() if cell else None] *)
Definition cell_value (c : str) : option str :=
  if nonempty c then Some (py_strip c) else None.

(** The cells of a row cut or filled to [n] cells. *)
Definition fit (n : nat) (row : list str) : list str :=
  let cells := firstn n row in
  if (length cells <? n)%nat
  then cells ++ repeat [] (n - length cells)
  else cells.

Definition row_record (cleaned_headers : list str) (row : list str) : record :=
  dict_of (zip cleaned_headers (map cell_value (fit (length cleaned_headers) row))).

Definition process_table_data (data : option table_data) (table_class : string)
  : list record :=
  match data with
  | None => []
  | Some d =>
      match d_header d, d_rows d with
      | Some header, Some rows =>
          let cleaned_headers := if nonempty header then clean_headers header else [] in
          if negb (nonempty cleaned_headers) then []
          else map (row_record cleaned_headers) (List.filter nonempty rows)
      | _, _ => []
      end
  end.

(** A section of the case page ([notices], [defects], [mention_memo] and
    the like): the table is read by [extract_table_data] and what was read
    is normalised by [process_table_data]. *)
Definition section_records (table : html_table) (table_class : string) : list record :=
  process_table_data (extract_table_data table) table_class.

(** A cell without text, or with white space only. *)
Definition blank_cell (c : cell) : Prop :=
  Forall (fun s => forallb py_isspace s = true) c.

End Table.

(** ** The order key of downloaded PDFs *)

Module Pdf.

(** A [datetime] at midnight. *)
Record datetime := { dt_year : Z; dt_month : Z; dt_day : Z }.

(** [datetime.min] *)
Definition datetime_min : datetime := {| dt_year := 1; dt_month := 1; dt_day := 1 |}.

Definition dt_leb (a b : datetime) : bool :=
  (dt_year a <? dt_year b)
  || ((dt_year a =? dt_year b)
      && ((dt_month a <? dt_month b)
          || ((dt_month a =? dt_month b) && (dt_day a <=? dt_day b)))).

Definition dt_ltb (a b : datetime) : bool := negb (dt_leb b a).

Definition digit (c : ascii) : option Z := digit_val c.

(** The day of [%d], [3[0-1]|[1-2]\d|0[1-9]|[1-9]| [1-9]]: the ways it can
    match at the start of [s], in the order of the alternatives. *)
Definition day_alternatives (s : str) : list (Z * str) :=
  let two (ok : Z -> Z -> bool) :=
    match s with
    | a :: b :: r =>
        match digit a, digit b with
        | Some x, Some y => if ok x y then [(10 * x + y, r)] else []
        | _, _ => []
        end
    | _ => []
    end in
  let one :=
    match s with
    | a :: r =>
        match digit a with
        | Some x => if 1 <=? x then [(x, r)] else []
        | None => []
        end
    | [] => []
    end in
  let padded :=
    match s with
    | a :: b :: r =>
        match digit b with
        | Some y => if eqc a " " && (1 <=? y) then [(y, r)] else []
        | None => []
        end
    | _ => []
    end in
  two (fun x y => (x =? 3) && (y <=? 1))
  ++ two (fun x y => (1 <=? x) && (x <=? 2))
  ++ two (fun x y => (x =? 0) && (1 <=? y))
  ++ one ++ padded.

Definition month_names : list (string * Z) :=
  [("jan", 1); ("feb", 2); ("mar", 3); ("apr", 4); ("may", 5); ("jun", 6);
   ("jul", 7); ("aug", 8); ("sep", 9); ("oct", 10); ("nov", 11); ("dec", 12)]%string.

(** The month of [%b] in the C locale, letters of either case. *)
Definition match_month (s : str) : option (Z * str) :=
  match s with
  | a :: b :: c :: r =>
      match List.find (fun nm => startswith (chars (fst nm)) (map lower_char [a; b; c]))
                      month_names with
      | Some nm => Some (snd nm, r)
      | None => None
      end
  | _ => None
  end.

(** The year of [%Y], four digits. *)
Definition match_year (s : str) : option (Z * str) :=
  match s with
  | a :: b :: c :: d :: r =>
      match digit a, digit b, digit c, digit d with
      | Some x, Some y, Some z, Some t => Some (1000 * x + 100 * y + 10 * z + t, r)
      | _, _, _, _ => None
      end
  | _ => None
  end.

Definition match_hyphen (s : str) : option str :=
  match s with
  | c :: r => if eqc c "-" then Some r else None
  | [] => None
  end.

(** What follows the day in [%d-%b-%Y]. *)
Definition match_after_day (day : Z) (s : str) : option (Z * Z * Z * str) :=
  r1 ← match_hyphen s;
  '(month, r2) ← match_month r1;
  r3 ← match_hyphen r2;
  '(year, r4) ← match_year r3;
  Some (year, month, day, r4).

Fixpoint first_match {A B} (f : A -> option B) (l : list A) : option B :=
  match l with
  | [] => None
  | x :: l' => match f x with Some y => Some y | None => first_match f l' end
  end.

Definition is_leap (y : Z) : bool :=
  (y mod 4 =? 0) && (negb (y mod 100 =? 0) || (y mod 400 =? 0)).

Definition days_in_month (y m : Z) : Z :=
  if m =? 2 then (if is_leap y then 29 else 28)
  else if (m =? 4) || (m =? 6) || (m =? 9) || (m =? 11) then 30
  else 31.

(** [datetime.strptime(s, "%d-%b-%Y")]; [None] is its [ValueError]: no
    match, text left over after the match, or a date that does not exist. *)
Definition strptime_d_b_Y (s : str) : option datetime :=
  match first_match (fun alt => match_after_day (fst alt) (snd alt)) (day_alternatives s) with
  | Some (y, m, d, []) =>
      if (1 <=? y) && (d <=? days_in_month y m)
      then Some {| dt_year := y; dt_month := m; dt_day := d |}
      else None
  | Some (_, _, _, _ :: _) => None
  | None => None
  end.

(** [os.path.basename] *)
Definition basename (path : str) : str := last_piece (py_split (chars "/") path).

(** The text that [extract_date_from_filename] hands to [strptime]. *)
Definition date_part (filename : str) : str :=
  py_replace (chars ".pdf") []
    (last_piece (py_split (chars "Order_") (basename filename))).

Definition extract_date_from_filename (filename : str) : datetime :=
  match strptime_d_b_Y (date_part filename) with
  | Some d => d
  | None => datetime_min
  end.

(** [list.sort(key=key)]: ascending and stable.  The element that comes
    first in the input goes in front of the sorted rest, before the first
    element whose key is not smaller. *)
Section Sort.

Context {A K : Type} (key : A -> K) (leb : K -> K -> bool).

Fixpoint insert_by (x : A) (l : list A) : list A :=
  match l with
  | [] => [x]
  | y :: l' => if leb (key x) (key y) then x :: y :: l' else y :: insert_by x l'
  end.

Fixpoint sort_by (l : list A) : list A :=
  match l with
  | [] => []
  | x :: l' => insert_by x (sort_by l')
  end.

End Sort.

(** [pdf_files.sort(key=lambda x: extract_date_from_filename(x))] *)
Definition sort_pdf_files (pdf_files : list str) : list str :=
  sort_by extract_date_from_filename dt_leb pdf_files.

(** A file is dated when the date in its name can be parsed. *)
Definition date_of (filename : str) : option datetime :=
  strptime_d_b_Y (date_part filename).

End Pdf.

(** ** The driver loop *)

Module Driver.

Import Captcha.

(** What the loop over the diary numbers of one year has done: the diary
    numbers looked up and the records stored, both latest first. *)
Record loop_state := { looked_up : list nat; stored : list case_data }.

Definition with_year (d : case_data) (from_year : Z) : case_data :=
  {| cd_details := cd_details d; cd_year := Some from_year |}.

(** The [while True] loop of one year.  [lookup] is the result of
    [process_case_details_by_diary_number] for each diary number; [None]
    is returned when [fuel] iterations were not enough to reach the
    [break]. *)
Fixpoint inner_loop (fuel : nat) (lookup : nat -> py_value) (from_year : Z)
    (current_diary_number continuous_empty_case : nat) (st : loop_state)
  : option loop_state :=
  match fuel with
  | O => None
  | S fuel' =>
      let op := lookup current_diary_number in
      let st := {| looked_up := current_diary_number :: looked_up st; stored := stored st |} in
      if (continuous_empty_case =? 10)%nat then Some st
      else
        match op with
        | PData d =>  (* a record is a non-empty dictionary, hence true *)
            inner_loop fuel' lookup from_year (S current_diary_number) continuous_empty_case
              {| looked_up := looked_up st; stored := with_year d from_year :: stored st |}
        | _ =>
            inner_loop fuel' lookup from_year (S current_diary_number)
              (S continuous_empty_case) st
        end
  end.

(** One year: the loop starts at diary number 1 with no miss counted. *)
Definition year_loop (fuel : nat) (lookup : nat -> py_value) (from_year : Z)
  : option loop_state :=
  inner_loop fuel lookup from_year 1 0 {| looked_up := []; stored := [] |}.

(** [if op:] *)
Definition truthy (op : py_value) : bool :=
  match op with PData _ => true | _ => false end.

(** The lookups without result among [k] diary numbers from [from]. *)
Definition misses (lookup : nat -> py_value) (from k : nat) : nat :=
  length (List.filter (fun n => negb (truthy (lookup n))) (seq from k)).

(** The records found among [k] diary numbers from [from], as stored. *)
Definition records (lookup : nat -> py_value) (from_year : Z) (from k : nat)
  : list case_data :=
  flat_map (fun n => match lookup n with
                     | PData d => [with_year d from_year]
                     | _ => []
                     end) (seq from k).

(** The record of the case with the given diary number. *)
Definition found (diary_number : string) : case_data :=
  {| cd_details := [("diary_number"%string, chars diary_number)]; cd_year := None |}.

(** A year in which the diary numbers 2 and 12 exist and no other. *)
Definition two_cases : nat -> py_value :=
  fun n => if (n =? 2)%nat then PData (found "2")
           else if (n =? 12)%nat then PData (found "12")
           else PNone.

(** A year without any case. *)
Definition no_case : nat -> py_value := fun _ => PNone.

End Driver.

(** ** Words for the further properties *)

Module Words.

Import Captcha.

(** [s.count(c)] for a character [c]. *)
Definition count_char (c : ascii) (s : str) : nat :=
  length (List.filter (eqc c) s).

(** From attempt [a] on, every attempt gets its image, reads a text that
    does not parse, and gets a fresh image on request. *)
Definition fails_from (w : world) (a : nat) : Prop :=
  forall n, (a <= n)%nat ->
    captcha_image (w n) = Done
    /\ is_parse_failure (solve_expression (ocr_text (w n))) = true
    /\ refresh (w n) = Done.

(** The CAPTCHA is solved at once and the case is found. *)
Definition found_at_once (d : case_data) : world :=
  fun _ => smooth "12 + 7" false (TableReturns (Some d)).

(** One round of an attempt whose text fails to parse: the image is read,
    the result and the failure are logged and a fresh image is asked for. *)
Definition failed_round (w : world) (n : nat) : list event :=
  [ImageRead n (ocr_text (w n));
   LogInfoResult (solve_expression (ocr_text (w n)));
   LogError (chars "Failed to parse expression. Retrying CAPTCHA process...");
   RefreshClick].

(** What the entry at the bound logs: the bound, and in the handler the
    error it raised. *)
Definition bound_reached : list event :=
  [LogError (chars "Max CAPTCHA attempts reached. Exiting process.");
   LogError (chars "Error in retry_captcha_process: Max CAPTCHA attempts reached. Please try again.")].

(** The answers typed into the CAPTCHA field, in order. *)
Definition submitted (evs : list event) : list solve_result :=
  flat_map (fun e => match e with SubmitAnswer r => [r] | _ => [] end) evs.

(** A character of ASCII. *)
Definition is_ascii (c : ascii) : bool := (code c <? 128)%N.

(** A character that leaves no trace in a cleaned header: not the slash,
    and after lowering not one of [[a-z0-9|]]. *)
Definition is_filler (c : ascii) : bool :=
  negb (eqc c "/")
  && (negb (Header.kept (lower_char c)) || eqc c " " || eqc c "_").

End Words.

(** ** The crawl over the years and the browser session of one lookup *)

Module Crawl.

Import Captcha Driver.

(** What a call gives: a value, or an exception that leaves it. *)
Inductive outcome :=
| Returned (v : py_value)
| Raised (msg : str).

Inductive session_event :=
| DriverStarted
| DriverQuit
| SessionLogError (msg : str)
| Inside (e : event).

(** [get_headless_driver]: the browser, or the error logged and raised
    again under a new text. *)
Definition get_headless_driver (start : step) : outcome * list session_event :=
  match start with
  | Done => (Returned PNone, [DriverStarted])
  | Raises e =>
      let msg := chars "Error in getting headless_driver: " ++ e in
      (Raised msg, [SessionLogError msg])
  end.

(** The steps before the CAPTCHA, in order: the first that raises ends
    them. *)
Fixpoint fill_form (steps : list step) : step :=
  match steps with
  | [] => Done
  | Done :: rest => fill_form rest
  | Raises msg :: _ => Raises msg
  end.

(** A lookup: the browser is started outside the [try], the form is
    filled and the CAPTCHA process run inside it, and [finally] quits the
    browser. *)
Definition lookup_session (start : step) (form : list step) (w : world)
  : outcome * list session_event :=
  match get_headless_driver start with
  | (Raised msg, evs) => (Raised msg, evs)
  | (Returned _, evs) =>
      match fill_form form with
      | Raises msg => (Raised msg, evs ++ [DriverQuit])
      | Done =>
          let data := retry_captcha_process w 0 default_max_attempts in
          (Returned (fst data), evs ++ map Inside (snd data) ++ [DriverQuit])
      end
  end.

(** [process_case_details_by_diary_number]: the page is opened, the diary
    number typed and the year selected. *)
Definition process_case_details_by_diary_number
    (start page diary_no year : step) (w : world) : outcome * list session_event :=
  lookup_session start [page; diary_no; year] w.

(** [process_case_details_by_case_number]: the page is opened, the case
    type selected, the case number typed and the year selected. *)
Definition process_case_details_by_case_number
    (start page case_type case_no year : step) (w : world)
  : outcome * list session_event :=
  lookup_session start [page; case_type; case_no; year] w.

Definition count_event (e : session_event) (evs : list session_event) : nat :=
  length (List.filter (fun e' => match e, e' with
                                 | DriverStarted, DriverStarted => true
                                 | DriverQuit, DriverQuit => true
                                 | _, _ => false
                                 end) evs).

(** The years from [y] down to 2020. *)
Definition years_down (y : Z) : list Z :=
  map (fun i => y - Z.of_nat i) (seq 0 (Z.to_nat (y - 2019))).

(** *** The loops of [__main__] with lookups and stores that may raise

    [process_case_details_by_diary_number] raises when the browser cannot
    be started or the form cannot be filled, and [save_to_mongodb] when the
    insertion fails; [__main__] catches nothing, so either ends the run. *)

(** How a loop ends: at its [break], or by an exception. *)
Inductive ending :=
| Ended (st : loop_state)
| Crashed (st : loop_state) (msg : str).

(** The value of a lookup that returns. *)
Definition returned (o : outcome) : py_value :=
  match o with
  | Returned op => op
  | Raised _ => PNone
  end.

(** The [while True] loop of one year.  [lookup] is how
    [process_case_details_by_diary_number] ends for each diary number and
    [insert_one] how the insertion of a record ends; [None] is returned
    when [fuel] iterations reached neither the [break] nor an exception. *)
Fixpoint inner_crawl (fuel : nat) (lookup : nat -> outcome) (insert_one : case_data -> step)
    (from_year : Z) (current_diary_number continuous_empty_case : nat) (st : loop_state)
  : option ending :=
  match fuel with
  | O => None
  | S fuel' =>
      let st := {| looked_up := current_diary_number :: looked_up st; stored := stored st |} in
      match lookup current_diary_number with
      | Raised msg => Some (Crashed st msg)
      | Returned op =>
          if (continuous_empty_case =? 10)%nat then Some (Ended st)
          else
            match op with
            | PData d =>
                match insert_one (with_year d from_year) with
                | Raises msg => Some (Crashed st msg)
                | Done =>
                    inner_crawl fuel' lookup insert_one from_year (S current_diary_number)
                      continuous_empty_case
                      {| looked_up := looked_up st;
                         stored := with_year d from_year :: stored st |}
                end
            | _ =>
                inner_crawl fuel' lookup insert_one from_year (S current_diary_number)
                  (S continuous_empty_case) st
            end
      end
  end.

Definition year_crawl (fuel : nat) (lookup : nat -> outcome) (insert_one : case_data -> step)
    (from_year : Z) : option ending :=
  inner_crawl fuel lookup insert_one from_year 1 0 {| looked_up := []; stored := [] |}.

(** The lookup of a diary number raises, or it finds a record whose
    insertion raises. *)
Definition trouble (lookup : nat -> outcome) (insert_one : case_data -> step)
    (from_year : Z) (n : nat) : bool :=
  match lookup n with
  | Raised _ => true
  | Returned (PData d) =>
      match insert_one (with_year d from_year) with Raises _ => true | Done => false end
  | Returned _ => false
  end.

(** How the crawl ends: after the last year, or by the exception that
    ended the loop of a year. *)
Inductive crawl_end :=
| Finished (done : list (Z * loop_state))
| Aborted (done : list (Z * loop_state)) (year : Z) (st : loop_state) (msg : str).

(** The [while from_year >= 2020] loop of [__main__].  It gives the state
    in which the loop of each year ended, latest year first, or [None]
    when [fuel] years or [inner_fuel] lookups of one year were not enough. *)
Fixpoint main_loop (fuel inner_fuel : nat) (lookup : Z -> nat -> outcome)
    (insert_one : case_data -> step) (from_year : Z) (done : list (Z * loop_state))
  : option crawl_end :=
  match fuel with
  | O => None
  | S fuel' =>
      if 2020 <=? from_year then
        match year_crawl inner_fuel (lookup from_year) insert_one from_year with
        | Some (Ended st) =>
            main_loop fuel' inner_fuel lookup insert_one (from_year - 1)
              ((from_year, st) :: done)
        | Some (Crashed st msg) => Some (Aborted done from_year st msg)
        | None => None
        end
      else Some (Finished done)
  end.

(** [from_year = 2025] *)
Definition main (fuel inner_fuel : nat) (lookup : Z -> nat -> outcome)
    (insert_one : case_data -> step) : option crawl_end :=
  main_loop fuel inner_fuel lookup insert_one 2025 [].

(** The years from [y] down to the year after [z]. *)
Definition years_between (y z : Z) : list Z :=
  map (fun i => y - Z.of_nat i) (seq 0 (Z.to_nat (y - z))).

(** Every lookup returns and every insertion works. *)
Definition calm (lookup : nat -> py_value) : nat -> outcome :=
  fun n => Returned (lookup n).

Definition stores : case_data -> step := fun _ => Done.


End Crawl.

(** ** Nested tables and the details block of a case *)

Module Sections.

Import Header Table.

(** [extract_nested_table_data], on the inner table already located:
    [names] are the texts of its [strong] elements and [nested_tables] the
    tables found in it; they are paired in order, up to the shorter of the
    two.  The header of a sub-table is read from its [th] cells only.
    [None] is the [AttributeError] of a paired table without [thead]. *)
Fixpoint extract_nested_table_data (names : list str) (nested_tables : list html_table)
  : option (list (str * table_data)) :=
  match names, nested_tables with
  | name :: names', table :: tables' =>
      let cleaned_name := clean_header (py_strip name) in
      match thead table with
      | None => None
      | Some h =>
          let header := texts (head_th h) in
          let rows :=
            match tbody table with
            | Some trs => List.filter nonempty (map texts trs)
            | None => []
            end in
          match extract_nested_table_data names' tables' with
          | Some data =>
              Some ((cleaned_name, {| d_header := Some header; d_rows := Some rows |})
                    :: data)
          | None => None
          end
      end
  | _, _ => Some []
  end.

(** [interlocutory_application_documents]: [section] is what the page
    gives for the section, [None] when it cannot be opened or has no table;
    each one-entry dictionary is a pair of its key and its value. *)
Definition interlocutory_application_documents
    (section : option (list str * list html_table))
  : option (list (str * list record)) :=
  match section with
  | None => None
  | Some (names, nested_tables) =>
      match extract_nested_table_data names nested_tables with
      | None | Some [] => None
      | Some data =>
          Some (map (fun kv => (fst kv,
                                process_table_data (Some (snd kv))
                                  "interlocutory_application_documents")) data)
      end
  end.

(** [s.rstrip(":")] *)
Definition rstrip_colons (s : str) : str := rstrip_by (fun c => eqc c ":") s.

(** One row of the details table: [find_all("td", limit=2)] gives two
    cells when the row has at least two. *)
Definition add_detail (details : gmap str str) (cells : list str) : gmap str str :=
  match cells with
  | key :: value :: _ => <[rstrip_colons (py_strip key) := py_strip value]> details
  | _ => details
  end.

(** [extract_case_details]: [table] holds, for each row of the details
    table, the texts of its cells; [None] when the page has no such table. *)
Definition extract_case_details (table : option (list (list str)))
  : option (gmap str str) :=
  match table with
  | None => None
  | Some rows =>
      let details := foldl add_detail ∅ rows in
      if decide (details = ∅) then None else Some details
  end.

(** A row with fewer than two cells. *)
Definition short_row (cells : list str) : Prop := (length cells < 2)%nat.

End Sections.

(** ** Downloading and naming the PDFs *)

Module Download.

Import Captcha Pdf.

(** A digit of [uuid4().hex]. *)
Definition is_hex (c : ascii) : bool := is_digit c || in_range 97 102 c.

(** [s.endswith(c)] for a character [c]. *)
Definition endswith_char (c : ascii) (s : str) : bool :=
  match last s with Some x => eqc x c | None => false end.

(** [os.path.join(a, b)] *)
Definition path_join (a b : str) : str :=
  if startswith (chars "/") b then b
  else if Table.nonempty a && negb (endswith_char "/" a) then a ++ chars "/" ++ b
  else a ++ b.

(** [download_pdf]: [href] is the address of the link, [None] without
    link or address; [uuid_hex] is what [uuid4().hex] gives and [fetch]
    how the request and the writing of the file end. *)
Definition download_pdf (href : option str) (uuid_hex : str) (folder_path : str)
    (fetch : step) : option str :=
  match href with
  | None | Some [] => None
  | Some url =>
      let pdf_name := uuid_hex ++ last_piece (py_split (chars "/") url) in
      let pdf_path := path_join folder_path pdf_name in
      match fetch with
      | Done => Some pdf_path
      | Raises _ => None
      end
  end.

(** [file_path.split("/")[-1]] of [upload_pdf_to_azure]. *)
Definition blob_name (file_path : str) : str :=
  last_piece (py_split (chars "/") file_path).

(** Two dates that are the same. *)
Definition same_date (a b : datetime) : bool := dt_leb a b && dt_leb b a.

End Download.

(** ** The orders of a case: download, order, upload *)

Module Orders.

Import Captcha Pdf Download.

(** A link of the orders table as [download_pdf] meets it: its address,
    the identifier drawn for it, and how the request and the writing end. *)
Record link := { href : option str; uuid_hex : str; fetch : step }.

(** What [judgement_orders] returns: three values, or the two values
    [None, None] of its [except] branch. *)
Inductive orders_result :=
| Three (table_data : option (list (datetime * str)))
        (merged_pdf_path folder_path : option str)
| Two.

Definition folder_name_of (diary_number : str) : str :=
  py_replace (chars "/") (chars "_") diary_number.

Definition folder_path_of (diary_number : str) : str :=
  path_join (chars "case_pdfs") (folder_name_of diary_number).

Definition merged_pdf_path_of (diary_number : str) : str :=
  path_join (folder_path_of diary_number)
            (folder_name_of diary_number ++ chars "_merged_pdf.pdf").

(** [list(filter(None, executor.map(lambda link: download_pdf(link, folder_path), links)))];
    [executor.map] gives the results in the order of the links. *)
Definition downloads (folder_path : str) (links : list link) : list str :=
  List.filter Table.nonempty
    (omap (fun l => download_pdf (href l) (uuid_hex l) folder_path (fetch l)) links).

(** [judgement_orders].  [wait] is how the click and the two waits end;
    [table] is the orders table of the page, [None] when the page has
    none, [Some None] when it has no [tbody]; [makedirs] and [merge] are
    how [os.makedirs] and [merge_pdfs] end.  The date of an entry is kept
    as the [datetime] that [strftime] then prints. *)
Definition judgement_orders (diary_number : str) (wait : step)
    (table : option (option (list link))) (makedirs merge : step) : orders_result :=
  match wait with
  | Raises _ => Two
  | Done =>
      match table with
      | None => Three None None None
      | Some tbody =>
          let folder_path := folder_path_of diary_number in
          match makedirs, tbody with
          | Raises _, _ | _, None => Two
          | Done, Some links =>
              match downloads folder_path links with
              | [] => Three (Some []) None (Some folder_path)
              | pdf_files =>
                  let sorted := sort_pdf_files pdf_files in
                  match merge with
                  | Raises _ => Two
                  | Done =>
                      Three (Some (map (fun pdf => (extract_date_from_filename pdf, pdf)) sorted))
                            (Some (merged_pdf_path_of diary_number))
                            (Some folder_path)
                  end
              end
          end
      end
  end.

(** [upload_pdf_to_azure]: [azure] gives, for a path and the name of the
    blob, the address of the blob, or [None] when anything raises; for
    [None] as path it is [split] that raises. *)
Definition upload_pdf_to_azure (file_path : option str)
    (azure : str -> str -> option str) : option str :=
  match file_path with
  | None => None
  | Some p => azure p (blob_name p)
  end.

(** [remove_dir]: [os.path.exists(None)] raises; [rmtree] is how
    [shutil.rmtree] ends for a directory that is there. *)
Definition remove_dir (dir_path : option str) (rmtree : step) : option py_exc :=
  match dir_path with
  | None =>
      Some (TypeError
              (chars "stat: path should be string, bytes, os.PathLike or integer, not NoneType"))
  | Some _ => match rmtree with Done => None | Raises msg => Some (Exception msg) end
  end.

(** The end of [process_table], from the call of [judgement_orders] on:
    the entries with the addresses of the uploads in place of the paths,
    and the address of the merged file; or the exception raised. *)
Definition process_table_orders (orders : orders_result)
    (azure : str -> str -> option str) (rmtree : step)
    : py_exc + (list (datetime * option str) * option str) :=
  match orders with
  | Two => inl (ValueError (chars "not enough values to unpack (expected 3, got 2)"))
  | Three None _ _ => inl (TypeError (chars "'NoneType' object is not iterable"))
  | Three (Some judgement_orders_data) merged_pdf_path folder_pdf_paths =>
      let uploaded :=
        map (fun item => (fst item, upload_pdf_to_azure (Some (snd item)) azure))
            judgement_orders_data in
      let new_merged_pdf_path := upload_pdf_to_azure merged_pdf_path azure in
      match remove_dir folder_pdf_paths rmtree with
      | Some e => inl e
      | None => inr (uploaded, new_merged_pdf_path)
      end
  end.

Definition raises {A : Type} (r : py_exc + A) : Prop := exists e, r = inl e.

(** A link with an address, whose file arrives. *)
Definition fetched (url : string) (uuid : string) : link :=
  {| href := Some (chars url); uuid_hex := chars uuid; fetch := Done |}.

End Orders.

(** ** Reading the text of the CAPTCHA image *)

Module Ocr.

Import Captcha.

(** [OperationStatusCodes] *)
Inductive status := not_started | running | failed | succeeded.

Definition pending (s : status) : bool :=
  match s with not_started | running => true | _ => false end.

(** What the vision service answers for one image: the [Operation-Location]
    header of the read request ([None] when opening the file or the request
    raises, or the header is missing); the status of the [n]th
    [get_read_result] for an operation ([None] when the call raises); and
    the lines of the pages of the result ([None] when there is none). *)
Record ocr_obs := {
  read_in_stream : option str;
  get_read_result : str -> nat -> option status;
  read_results : option (list (list str))
}.

Definition failed_to_read : str := chars "Failed to read text from image.".

(** A request that ends the loop: it raises, or its status is final. *)
Definition settled (r : option status) : bool :=
  match r with
  | Some s => negb (pending s)
  | None => true
  end.

(** The loop [while True] of [extract_text_from_image] from the [n]th
    request on: [None] when the fuel runs out, else the final status, or
    [None] for a request that raises. *)
Fixpoint poll (fuel : nat) (results : nat -> option status) (n : nat)
    : option (option status) :=
  match fuel with
  | O => None
  | S fuel' =>
      match results n with
      | None => Some None
      | Some s => if pending s then poll fuel' results (S n) else Some (Some s)
      end
  end.

(** The text put together from the lines: [text += line.text + "\n"]. *)
Definition lines_text (pages : list (list str)) : str :=
  concat (map (fun page => concat (map (fun line => line ++ chars (String "010" "")) page)) pages).

Definition extract_text_from_image (fuel : nat) (o : ocr_obs) : option str :=
  match read_in_stream o with
  | None => Some failed_to_read
  | Some operation_location =>
      let operation_id := last_piece (py_split (chars "/") operation_location) in
      match poll fuel (get_read_result o operation_id) 0 with
      | None => None
      | Some None => Some failed_to_read
      | Some (Some succeeded) =>
          match read_results o with
          | Some pages => Some (py_strip (lines_text pages))
          | None => Some failed_to_read
          end
      | Some (Some _) => Some failed_to_read
      end
  end.

(** The service answers [running] a number of times and then [final]. *)
Definition answers_after (k : nat) (final : status) (pages : list (list str)) : ocr_obs :=
  {| read_in_stream := Some (chars "https://vision/read/operations/42");
     get_read_result := fun _ n => Some (if (n <? k)%nat then running else final);
     read_results := Some pages |}.

End Ocr.

(** ** Reading a table of the page *)

Module Soup.

Import Captcha Table.

(** The table element that [extract_table_details] has found, as the
    lookups of [extract_table_data] see it: its [tbody] may be missing, the
    [tbody] may hold no inner [table], or the inner table is there. *)
Inductive located :=
| NoTbody
| NoInnerTable
| Inner (table : html_table).

(** What a call of [extract_table_data] ends with: an [AttributeError], or
    the dictionary returned. *)
Inductive extraction :=
| AttributeError (msg : str)
| Extracted (data : table_data).

(** The text of the error for an attribute of [None]. *)
Definition none_has_no (attribute : string) : str :=
  chars "'NoneType' object has no attribute '" ++ chars attribute ++ chars "'".

(** [extract_table_data]: [table.find("tbody").find("table")] raises on a
    missing [tbody]; without inner table it gives [None], and the lookup of
    [thead] on it raises; on the inner table the lookups in a missing
    [thead] raise.  The function has no [return None]. *)
Definition extract_table_data (table : located) : extraction :=
  match table with
  | NoTbody => AttributeError (none_has_no "find")
  | NoInnerTable => AttributeError (none_has_no "find")
  | Inner inner =>
      match Table.extract_table_data inner with
      | Some data => Extracted data
      | None => AttributeError (none_has_no "find_all")
      end
  end.

(** [extract_table_details] with [nested=False]: [wait] is how the click
    and the waits end, [page] the table of the class in the page source,
    [None] when there is none.  Every exception is logged and answered
    with [None]. *)
Definition extract_table_details (wait : step) (page : option located)
  : option table_data :=
  match wait with
  | Raises _ => None
  | Done =>
      match page with
      | None => None
      | Some table =>
          match extract_table_data table with
          | Extracted data => Some data
          | AttributeError _ => None
          end
      end
  end.

End Soup.

(** * Properties *)

(** ** Python strings *)

Section StringFacts.

Lemma eqc_true a b : eqc a b = true <-> a = b.
Proof.
  unfold eqc, code. rewrite N.eqb_eq. split; [|congruence].
  intros H. rewrite <- (ascii_N_embedding a), <- (ascii_N_embedding b).
  congruence.
Qed.

(** A text without the separator is a single piece. *)
Lemma split_from_absent c cur s :
  contains_char c s = false -> split_from [c] cur s = [rev cur ++ s].
Proof.
  revert cur. induction s as [|x s IH]; intros cur H.
  - simp split_from. now rewrite app_nil_r.
  - cbn in H. apply orb_false_iff in H as [Hx Hs].
    rewrite split_from_equation_2. cbn [startswith]. rewrite Hx. cbn.
    simp split_from. rewrite IH by exact Hs. cbn. now rewrite <- app_assoc.
Qed.

Lemma split_two_contains c text a b :
  py_split [c] text = [a; b] -> contains_char c text = true.
Proof.
  intros H. destruct (contains_char c text) eqn:E; [reflexivity|].
  unfold py_split in H. rewrite split_from_absent in H by exact E. discriminate.
Qed.

Lemma by_length (P : str -> Prop) :
  (forall s, (forall t, (length t < length s)%nat -> P t) -> P s) -> forall s, P s.
Proof.
  intros H s. remember (length s) as n eqn:Hn. revert s Hn.
  induction n as [n IH] using lt_wf_ind. intros s ->.
  apply H. intros t Ht. now apply (IH (length t)).
Qed.

(** White space only strips to nothing. *)
Lemma lstrip_all p s : forallb p s = true -> lstrip_by p s = [].
Proof.
  induction s as [|c s IH]; [reflexivity|]. cbn.
  intros H. apply andb_true_iff in H as [-> H]. now apply IH.
Qed.

Lemma strip_all p s : forallb p s = true -> strip_by p s = [].
Proof. intros H. unfold strip_by, rstrip_by. rewrite (lstrip_all p s H). reflexivity. Qed.

(** The stripped text is what is left behind a run of stripped characters. *)
Lemma lstrip_suffix p s : skipn (length s - length (lstrip_by p s)) s = lstrip_by p s.
Proof.
  induction s as [|c s IH]; [reflexivity|]. cbn [lstrip_by].
  destruct (p c).
  - assert (length (lstrip_by p s) <= length s)%nat.
    { rewrite <- IH at 1. rewrite length_skipn. lia. }
    cbn [length]. replace (S (length s) - length (lstrip_by p s))%nat
      with (S (length s - length (lstrip_by p s))) by lia.
    exact IH.
  - now rewrite Nat.sub_diag.
Qed.

Lemma lstrip_length p s : (length (lstrip_by p s) <= length s)%nat.
Proof. rewrite <- lstrip_suffix at 1. rewrite length_skipn. lia. Qed.

Lemma lstrip_first p s :
  match lstrip_by p s with c :: _ => p c = false | [] => True end.
Proof.
  induction s as [|c s IH]; [exact I|]. cbn.
  destruct (p c) eqn:E; [exact IH | exact E].
Qed.

Lemma lstrip_fixed p s :
  match s with c :: _ => p c = false | [] => True end -> lstrip_by p s = s.
Proof. destruct s as [|c s]; [reflexivity|]. cbn. now intros ->. Qed.

Lemma lstrip_app p s : exists w, s = w ++ lstrip_by p s.
Proof.
  exists (firstn (length s - length (lstrip_by p s)) s).
  pose proof (firstn_skipn (length s - length (lstrip_by p s)) s) as H.
  rewrite lstrip_suffix in H. now symmetry.
Qed.

(** What [strip] returns is a part of the text, and stripping it again
    changes nothing. *)
Lemma strip_part p s :
  (exists w z, s = w ++ strip_by p s ++ z)
  /\ strip_by p (strip_by p s) = strip_by p s.
Proof.
  unfold strip_by, rstrip_by.
  set (t := lstrip_by p s).
  destruct (lstrip_app p s) as [w Hw]. fold t in Hw.
  destruct (lstrip_app p (rev t)) as [w' Hw'].
  set (u := lstrip_by p (rev t)) in *.
  assert (Ht : t = rev u ++ rev w').
  { rewrite <- rev_app_distr, <- Hw'. now rewrite rev_involutive. }
  split.
  - exists w, (rev w'). now rewrite <- Ht.
  - assert (Hl : lstrip_by p (rev u) = rev u).
    { apply lstrip_fixed. pose proof (lstrip_first p s) as Hf. fold t in Hf.
      rewrite Ht in Hf. destruct (rev u); [exact I | exact Hf]. }
    rewrite Hl, rev_involutive. f_equal.
    apply lstrip_fixed. apply lstrip_first.
Qed.

Lemma starts_firm_app p s t : starts_firm p s -> starts_firm p (s ++ t).
Proof. destruct s; [intros []|exact id]. Qed.

Lemma trimmed_app p s t : trimmed p s -> trimmed p t -> trimmed p (s ++ t).
Proof.
  intros [Hs _] [_ Ht]. split; [now apply starts_firm_app|].
  rewrite rev_app_distr. now apply starts_firm_app.
Qed.

Lemma trimmed_fixed p s : trimmed p s -> strip_by p s = s.
Proof.
  intros [Hs Hr]. unfold strip_by, rstrip_by.
  rewrite (lstrip_fixed p s) by (destruct s; [exact I|exact Hs]).
  rewrite (lstrip_fixed p (rev s)) by (destruct (rev s); [exact I|exact Hr]).
  apply rev_involutive.
Qed.

(** What [strip] returns is empty or trimmed. *)
Lemma strip_trimmed p s : strip_by p s <> [] -> trimmed p (strip_by p s).
Proof.
  intros Hne.
  destruct (strip_part p s) as [_ Hfix].
  unfold strip_by, rstrip_by in *.
  set (t := lstrip_by p s) in *. set (u := lstrip_by p (rev t)) in *.
  split.
  - destruct (lstrip_app p (rev t)) as [w' Hw']. fold u in Hw'.
    assert (Ht : t = rev u ++ rev w').
    { rewrite <- rev_app_distr, <- Hw'. now rewrite rev_involutive. }
    pose proof (lstrip_first p s) as Hf. fold t in Hf. rewrite Ht in Hf.
    destruct (rev u); [now destruct Hne | exact Hf].
  - rewrite rev_involutive. pose proof (lstrip_first p (rev t)) as Hf. fold u in Hf.
    destruct u; [now destruct Hne | exact Hf].
Qed.

Lemma concat_trimmed p (l : list str) :
  l <> [] -> Forall (trimmed p) l -> trimmed p (concat l).
Proof.
  intros Hne Hl. induction Hl as [|s l Hs Hl IH]; [now destruct Hne|].
  cbn. destruct l as [|t l]; [now rewrite app_nil_r|].
  apply trimmed_app; [exact Hs|]. now apply IH.
Qed.

End StringFacts.

(** ** The CAPTCHA solver *)

Section CaptchaFacts.

Import Captcha.

Lemma retry_unfold w a m :
  retry_captcha_process w a m =
  if (m <=? a)%nat then exhausted
  else attempt_body (w a) a (retry_captcha_process w (S a) default_max_attempts).
Proof.
  rewrite retry_captcha_process_equation_1.
  unfold retry_captcha_process_unfold_clause_1, inspect.
  now destruct (m <=? a)%nat.
Qed.

End CaptchaFacts.

Section SolveExpression.

Import Captcha.

Lemma solve_plus text a b x y :
  py_split (chars "+") text = [a; b] ->
  py_int (py_strip a) = Some x -> py_int (py_strip b) = Some y ->
  solve_expression text = SInt (x + y).
Proof.
  intros Hs Ha Hb. unfold solve_expression, solve_try.
  rewrite (split_two_contains _ _ _ _ Hs), Hs. cbn. now rewrite Ha, Hb.
Qed.

Lemma solve_minus text a b x y :
  contains_char "+" text = false ->
  py_split (chars "-") text = [a; b] ->
  py_int (py_strip a) = Some x -> py_int (py_strip b) = Some y ->
  solve_expression text = SInt (x - y).
Proof.
  intros Hp Hs Ha Hb. unfold solve_expression, solve_try.
  rewrite Hp, Hs. cbn. now rewrite Ha, Hb.
Qed.

(** Whatever is returned is an integer computed from two operands around
    the operator that the text selects, or a parse failure. *)
Lemma solve_result_cases text :
  let op := if contains_char "+" text then "+"%char else "-"%char in
  (exists x y, two_operands op text x y)
  \/ is_parse_failure (solve_expression text) = true.
Proof.
  unfold solve_expression, solve_try, two_operands.
  destruct (contains_char "+" text); cbn zeta.
  all: match goal with |- context [map py_strip ?p] => destruct p as [|a [|b [|c l]]] eqn:Hs end.
  all: cbn; try (right; reflexivity).
  all: destruct (py_int (py_strip a)) as [x|] eqn:Ha; [|right; reflexivity].
  all: destruct (py_int (py_strip b)) as [y|] eqn:Hb; [|right; reflexivity].
  all: left; exists x, y, a, b; auto.
Qed.

(** C5, as amended: the sum of two integer operands around [+]; the
    difference of two integer operands around [-] when the text holds no
    [+]; for any other text a parse-failure value.  The function has no
    other outcome: it never raises. *)
Theorem solve_expression_cases (text : str) :
  (forall x y, two_operands "+" text x y -> solve_expression text = SInt (x + y))
  /\ (forall x y, contains_char "+" text = false -> two_operands "-" text x y ->
        solve_expression text = SInt (x - y))
  /\ ((forall x y, ~ two_operands "+" text x y) ->
      (contains_char "+" text = true \/ forall x y, ~ two_operands "-" text x y) ->
      is_parse_failure (solve_expression text) = true).
Proof.
  split; [|split].
  - intros x y (a & b & Hs & Ha & Hb). eapply solve_plus; eauto.
  - intros x y Hp (a & b & Hs & Ha & Hb). eapply solve_minus; eauto.
  - intros Hplus Hminus.
    destruct (solve_result_cases text) as [(x & y & H)|H]; [|exact H].
    destruct (contains_char "+" text) eqn:Hp.
    + destruct (Hplus _ _ H).
    + destruct Hminus as [Hm|Hm]; [discriminate | destruct (Hm _ _ H)].
Qed.

Lemma solve_expression_cases_witness :
  solve_expression (chars "12 + 7") = SInt 19
  /\ solve_expression (chars "20 - 35") = SInt (-15)
  /\ is_parse_failure (solve_expression (chars "12 * 7")) = true.
Proof.
  split; [|split].
  - apply (proj1 (solve_expression_cases (chars "12 + 7")) 12 7).
    exists (chars "12 "), (chars " 7"). repeat split; reflexivity.
  - apply (proj1 (proj2 (solve_expression_cases (chars "20 - 35"))) 20 35).
    + reflexivity.
    + exists (chars "20 "), (chars " 35"). repeat split; reflexivity.
  - apply (proj2 (proj2 (solve_expression_cases (chars "12 * 7")))).
    + intros x y (a & b & Hs & _). vm_compute in Hs. discriminate Hs.
    + right. intros x y (a & b & Hs & _). vm_compute in Hs. discriminate Hs.
Defined.

(** C5, as stated, fails: around [-] the text [+5-3] splits into the
    integers 5 and 3, yet the [+] in it selects the other operator and the
    result is a parse failure. *)
Lemma solve_expression_minus_counterexample :
  ~ (forall text x y, two_operands "-" text x y -> solve_expression text = SInt (x - y)).
Proof.
  intros H. specialize (H (chars "+5-3") 5 3).
  assert (Hs : two_operands "-" (chars "+5-3") 5 3).
  { exists (chars "+5"), (chars "3"). repeat split; reflexivity. }
  apply H in Hs. vm_compute in Hs. discriminate Hs.
Qed.

End SolveExpression.

(** ** The retry controller *)

Section RetryController.

Import Captcha.

Lemma image_reads_app evs evs' :
  image_reads (evs ++ evs') = (image_reads evs + image_reads evs')%nat.
Proof. unfold image_reads. now rewrite List.filter_app, length_app. Qed.

Lemma read_attempts_app evs evs' :
  read_attempts (evs ++ evs') = read_attempts evs ++ read_attempts evs'.
Proof. unfold read_attempts. apply flat_map_app. Qed.

Lemma image_reads_length evs : image_reads evs = length (read_attempts evs).
Proof.
  induction evs as [|e evs IH]; [reflexivity|].
  change (e :: evs) with ([e] ++ evs).
  rewrite image_reads_app, read_attempts_app, length_app, IH.
  now destruct e.
Qed.

Lemma after_submit_reads o : image_reads (snd (after_submit o)) = 0%nat.
Proof.
  unfold after_submit. cbn.
  destruct (results o) as [msg|[d|]]; reflexivity.
Qed.

(** One entry reads at most one image itself. *)
Lemma attempt_body_reads o a retried :
  (image_reads (snd (attempt_body o a retried)) <= 1 + image_reads (snd retried))%nat.
Proof.
  unfold attempt_body.
  destruct (captcha_image o); [|cbn; lia].
  cbn zeta. destruct (is_parse_failure _).
  - destruct (refresh o); cbn [snd]; repeat rewrite image_reads_app; cbn; lia.
  - destruct (submit o); cbn [snd]; repeat rewrite image_reads_app;
      try rewrite after_submit_reads; cbn; lia.
Qed.

Lemma reads_bounded w k : forall a,
  (default_max_attempts - a = k)%nat ->
  (image_reads (snd (retry_captcha_process w a default_max_attempts)) <= k)%nat.
Proof.
  induction k as [|k IH]; intros a Hk; rewrite retry_unfold.
  - replace (default_max_attempts <=? a)%nat with true
      by (symmetry; apply Nat.leb_le; lia).
    cbn. lia.
  - replace (default_max_attempts <=? a)%nat with false
      by (symmetry; apply Nat.leb_gt; lia).
    etransitivity; [apply attempt_body_reads|].
    specialize (IH (S a)). lia.
Qed.

Lemma failing_attempt_body o a retried :
  captcha_image o = Done ->
  is_parse_failure (solve_expression (ocr_text o)) = true ->
  refresh o = Done ->
  attempt_body o a retried =
  (PNone, [ImageRead a (ocr_text o); LogInfoResult (solve_expression (ocr_text o));
           parse_failure_logged; RefreshClick] ++ snd retried).
Proof.
  intros Hi Hp Hr. unfold attempt_body. now rewrite Hi, Hp, Hr.
Qed.

Lemma all_failures w : always_parse_failure w ->
  forall k a, (a + k = default_max_attempts)%nat ->
    read_attempts (snd (retry_captcha_process w a default_max_attempts)) = seq a k
    /\ exists evs, snd (retry_captcha_process w a default_max_attempts)
                   = evs ++ snd exhausted.
Proof.
  intros Hw. induction k as [|k IH]; intros a Hk; rewrite retry_unfold.
  - replace (default_max_attempts <=? a)%nat with true
      by (symmetry; apply Nat.leb_le; lia).
    split; [reflexivity | now exists []].
  - replace (default_max_attempts <=? a)%nat with false
      by (symmetry; apply Nat.leb_gt; lia).
    destruct (Hw a ltac:(lia)) as (Hi & Hp & Hr).
    rewrite failing_attempt_body by assumption.
    destruct (IH (S a) ltac:(lia)) as (Hreads & evs & Hevs).
    cbn [snd]. split.
    + rewrite read_attempts_app, Hreads. reflexivity.
    + rewrite Hevs. eexists. now rewrite app_assoc.
Qed.

(** The whole run when every attempt fails to parse: one round of image,
    logged result, logged failure and refresh for each attempt left, and
    then the entry at the bound. *)
Lemma all_failures_trace w : always_parse_failure w ->
  forall k a, (a + k = default_max_attempts)%nat ->
    retry_captcha_process w a default_max_attempts
    = (PNone, flat_map (Words.failed_round w) (seq a k) ++ Words.bound_reached).
Proof.
  intros Hw. induction k as [|k IH]; intros a Hk; rewrite retry_unfold.
  - replace (default_max_attempts <=? a)%nat with true
      by (symmetry; apply Nat.leb_le; lia).
    reflexivity.
  - replace (default_max_attempts <=? a)%nat with false
      by (symmetry; apply Nat.leb_gt; lia).
    destruct (Hw a ltac:(lia)) as (Hi & Hp & Hr).
    rewrite failing_attempt_body by assumption.
    rewrite (IH (S a)) by lia. reflexivity.
Qed.

Lemma flat_map_none {A B} (f : A -> list B) (g : B -> list nat) (l : list A) :
  (forall a, flat_map g (f a) = []) -> flat_map g (flat_map f l) = [].
Proof.
  intros H. induction l as [|a l IH]; [reflexivity|].
  cbn [flat_map]. now rewrite flat_map_app, H, IH.
Qed.

(** C1: under the default bound a case lookup reads at most 20 CAPTCHA
    images, whatever the page and the OCR service answer.  When every
    attempt is a parse failure, the lookup is twenty rounds, for the
    attempts 0 to 19, of an image read, its result logged, the failure to
    parse logged and a fresh image requested; nothing is submitted; the
    entry that follows the twentieth failure reads nothing, logs that the
    bound is reached and raises the error
    [Max CAPTCHA attempts reached. Please try again.], which the handler
    of the function logs; and the lookup ends without a result. *)
Theorem captcha_retry_bound (w : world) :
  (image_reads (snd (case_lookup w)) <= 20)%nat
  /\ (always_parse_failure w ->
      snd (case_lookup w)
      = flat_map (fun n => [ImageRead n (ocr_text (w n));
                            LogInfoResult (solve_expression (ocr_text (w n)));
                            LogError (chars "Failed to parse expression. Retrying CAPTCHA process...");
                            RefreshClick])
                 (seq 0 20)
        ++ [LogError (chars "Max CAPTCHA attempts reached. Exiting process.");
            LogError (chars "Error in retry_captcha_process: Max CAPTCHA attempts reached. Please try again.")]
      /\ max_attempts_reached
         = Exception (chars "Max CAPTCHA attempts reached. Please try again.")
      /\ read_attempts (snd (case_lookup w)) = seq 0 20
      /\ image_reads (snd (case_lookup w)) = 20%nat
      /\ Words.submitted (snd (case_lookup w)) = []
      /\ fst (case_lookup w) = PNone).
Proof.
  unfold case_lookup. split.
  - apply reads_bounded. reflexivity.
  - intros Hw.
    destruct (all_failures w Hw 20 0 eq_refl) as (Hreads & _).
    pose proof (all_failures_trace w Hw 20 0 eq_refl) as Htrace.
    split; [now rewrite Htrace|]. split; [reflexivity|].
    split; [exact Hreads|]. split; [now rewrite image_reads_length, Hreads|].
    split; [|now rewrite Htrace].
    rewrite Htrace. cbn [snd]. unfold Words.submitted.
    rewrite flat_map_app. cbn [Words.bound_reached flat_map app].
    rewrite app_nil_r. generalize (seq 0 20). intros l.
    induction l as [|n l IH]; [reflexivity|].
    cbn [flat_map]. rewrite flat_map_app, IH. reflexivity.
Qed.

Lemma captcha_retry_bound_witness :
  always_parse_failure unreadable
  /\ read_attempts (snd (case_lookup unreadable)) = seq 0 20
  /\ last (snd (case_lookup unreadable))
     = Some (LogError (chars "Error in retry_captcha_process: Max CAPTCHA attempts reached. Please try again."))
  /\ fst (case_lookup unreadable) = PNone.
Proof.
  assert (H : always_parse_failure unreadable).
  { intros n _. repeat split; reflexivity. }
  split; [exact H|].
  destruct (proj2 (captcha_retry_bound unreadable) H) as (Ht & _ & Hr & _ & _ & Hv).
  split; [exact Hr|]. split; [|exact Hv].
  rewrite Ht, last_app. reflexivity.
Defined.

(** Whatever an entry returns, it is [None] or a case record. *)
Lemma attempt_body_value o a retried :
  fst (attempt_body o a retried) = PNone
  \/ exists d, fst (attempt_body o a retried) = PData d.
Proof.
  unfold attempt_body.
  destruct (captcha_image o); [|now left].
  cbn zeta. destruct (is_parse_failure _).
  - destruct (refresh o); now left.
  - destruct (submit o); [|now left].
    cbn [fst]. unfold after_submit. cbn.
    destruct (results o) as [msg|[d|]]; cbn; eauto.
Qed.

(** C10: once an attempt is logged as a parse failure, the call returns
    [None], whatever the retries achieve.  There are runs where the retry
    solves the CAPTCHA and extracts the case, and the record that the
    inner call returns is lost. *)
Theorem retry_result_discarded :
  (forall w attempt max_attempts,
     In parse_failure_logged (snd (retry_captcha_process w attempt max_attempts)) ->
     fst (retry_captcha_process w attempt max_attempts) = PNone)
  /\ (forall d,
        fst (retry_captcha_process (second_time_lucky d) 1 default_max_attempts) = PData d
        /\ In parse_failure_logged (snd (case_lookup (second_time_lucky d)))
        /\ fst (case_lookup (second_time_lucky d)) = PNone).
Proof.
  split.
  - intros w a m. rewrite retry_unfold.
    destruct (m <=? a)%nat; [reflexivity|].
    unfold attempt_body.
    destruct (captcha_image (w a)); [|reflexivity].
    cbn zeta. destruct (is_parse_failure _).
    + destruct (refresh (w a)); reflexivity.
    + destruct (submit (w a)); [|reflexivity].
      cbn [fst snd]. unfold after_submit. cbn.
      unfold parse_failure_logged.
      destruct (results (w a)) as [msg|[d|]]; cbn; intros H;
        repeat (destruct H as [H|H]; [discriminate H|]); destruct H.
  - intros d. unfold case_lookup.
    rewrite (retry_unfold _ 0), (retry_unfold _ 1). cbn.
    repeat split. right. right. now left.
Qed.

Lemma retry_result_discarded_witness :
  fst (case_lookup (second_time_lucky (Driver.found "7"))) = PNone.
Proof.
  apply (proj1 retry_result_discarded).
  unfold case_lookup. rewrite retry_unfold. cbn. right. right. now left.
Defined.

(** C8: the lookup never returns [False].  The call that builds the
    not-found condition is given two arguments instead of one locator, so
    it raises before the page is looked at, the error is passed over, and
    the [return False] below it is never reached.  With the not-found block
    on the page the lookup logs an error after the form submission and
    returns [None], exactly as it does when the block is absent and the
    result table cannot be read. *)
Theorem notfound_returns_none :
  (forall w attempt max_attempts,
     fst (retry_captcha_process w attempt max_attempts) = PNone
     \/ exists d, fst (retry_captcha_process w attempt max_attempts) = PData d)
  /\ case_lookup case_not_found =
     (PNone, [ImageRead 0 (chars "12 + 7"); LogInfoResult (SInt 19);
              SubmitAnswer (SInt 19);
              LogError (chars "Error after form submission: timeout")])
  /\ case_lookup case_not_found = case_lookup extraction_fails.
Proof.
  split; [|split].
  - intros w a m. rewrite retry_unfold.
    destruct (m <=? a)%nat; [now left|]. apply attempt_body_value.
  - unfold case_lookup. rewrite retry_unfold. reflexivity.
  - unfold case_lookup. rewrite !(retry_unfold _ 0). reflexivity.
Qed.

End RetryController.

(** ** The driver loop *)

Section DriverLoop.

Import Captcha Driver.

(** What the loop does when it ends: it has looked up the diary numbers
    from the first one to some [current + k]; among the first [k] of them
    the misses, added to those counted before, are ten, wherever they lie;
    the records found among these [k] are stored, and the last lookup is
    made and dropped. *)
Lemma inner_loop_ends fuel lookup from_year : forall current count st st',
  (count <= 10)%nat ->
  inner_loop fuel lookup from_year current count st = Some st' ->
  exists k,
    looked_up st' = rev (seq current (S k)) ++ looked_up st
    /\ (count + misses lookup current k = 10)%nat
    /\ stored st' = rev (records lookup from_year current k) ++ stored st.
Proof.
  induction fuel as [|fuel IH]; intros current count st st' Hc H; [discriminate H|].
  cbn [inner_loop] in H. destruct (count =? 10)%nat eqn:E.
  - apply Nat.eqb_eq in E. injection H as <-. exists 0%nat.
    cbn. repeat split. unfold misses. cbn. lia.
  - apply Nat.eqb_neq in E.
    destruct (lookup current) as [| |d] eqn:Hop.
    all: apply IH in H; [|lia]; destruct H as (k & Hl & Hm & Hs); exists (S k).
    all: cbn [looked_up stored] in *.
    all: change (seq current (S (S k))) with (current :: seq (S current) (S k)).
    all: change (rev (current :: seq (S current) (S k)))
           with (rev (seq (S current) (S k)) ++ [current]).
    all: rewrite <- app_assoc; split; [exact Hl|].
    all: unfold misses, records in *.
    all: change (seq current (S k)) with (current :: seq (S current) k).
    all: cbn [List.filter flat_map]; rewrite Hop; cbn [truthy negb length app].
    all: split; [lia|].
    all: rewrite Hs; cbn [rev]; now rewrite <- ?app_assoc.
Qed.

(** C7: the loop of one year, run on a year where only the diary numbers 2
    and 12 exist.  The misses are 1 and 3 to 11, so no ten of them are
    consecutive; the loop still ends, at diary number 12, whose record is
    looked up and not stored.  On a year without any case the loop ends
    after eleven lookups, one more than the ten misses. *)
Theorem year_loop_counts_all_misses :
  year_loop 100 two_cases 2025
  = Some {| looked_up := rev (seq 1 12); stored := [with_year (found "2") 2025] |}
  /\ year_loop 100 no_case 2025
     = Some {| looked_up := rev (seq 1 11); stored := [] |}.
Proof. split; reflexivity. Qed.

End DriverLoop.

(** ** Table normalisation *)

Section TableFacts.

Import Header Table.

Lemma fit_length n (row : list str) : length (fit n row) = n.
Proof.
  unfold fit. destruct (length (firstn n row) <? n)%nat eqn:E.
  - apply Nat.ltb_lt in E. rewrite length_app, repeat_length. lia.
  - apply Nat.ltb_ge in E. pose proof (firstn_le_length n row). lia.
Qed.

Lemma fit_long n (row : list str) :
  (n <= length row)%nat -> fit n row = firstn n row.
Proof.
  intros H. unfold fit. rewrite length_firstn, Nat.min_l by exact H.
  now rewrite Nat.ltb_irrefl.
Qed.

Lemma fit_short n (row : list str) :
  (length row <= n)%nat -> fit n row = row ++ repeat [] (n - length row).
Proof.
  intros H. unfold fit. rewrite firstn_all2 by exact H.
  destruct (length row <? n)%nat eqn:E; [reflexivity|].
  apply Nat.ltb_ge in E. replace (n - length row)%nat with 0%nat by lia.
  cbn. now rewrite app_nil_r.
Qed.

Lemma dict_from_dom (pairs : list (str * option str)) (d : record) :
  dom (foldl (fun d kv => <[kv.1 := kv.2]> d) d pairs)
  = dom d ∪ list_to_set (pairs.*1).
Proof.
  revert d. induction pairs as [|[k v] pairs IH]; intros d; cbn.
  - now rewrite (right_id_L ∅ (∪)).
  - rewrite IH, dom_insert_L. now rewrite (comm_L (∪) {[k]}), <- (assoc_L (∪)).
Qed.

Lemma dict_of_dom pairs : dom (dict_of pairs) = list_to_set (pairs.*1).
Proof. unfold dict_of. now rewrite dict_from_dom, dom_empty_L, (left_id_L ∅ (∪)). Qed.

Lemma dict_from_absent (pairs : list (str * option str)) (d : record) h :
  h ∉ pairs.*1 ->
  foldl (fun d kv => <[kv.1 := kv.2]> d) d pairs !! h = d !! h.
Proof.
  revert d. induction pairs as [|[k v] pairs IH]; intros d Hh; cbn; [reflexivity|].
  cbn in Hh. apply not_elem_of_cons in Hh as [Hk Hh].
  rewrite IH by exact Hh. now rewrite lookup_insert_ne.
Qed.

(** The value under a key is the one of the last pair with that key. *)
Lemma dict_of_lookup (hs : list str) (vs : list (option str)) i h v :
  hs !! i = Some h -> vs !! i = Some v -> h ∉ drop (S i) hs ->
  dict_of (zip hs vs) !! h = Some v.
Proof.
  intros Hh Hv Hlast. unfold dict_of.
  assert (Hz : zip hs vs !! i = Some (h, v)).
  { apply lookup_zip_with_Some. eauto. }
  rewrite <- (take_drop_middle _ _ _ Hz), foldl_app. cbn.
  rewrite dict_from_absent; [apply lookup_insert_eq|].
  intros Hin. apply Hlast.
  apply list_elem_of_fmap in Hin as [[h' v'] [-> Hin]].
  rewrite zip_with_drop in Hin. now apply elem_of_zip_l in Hin.
Qed.

Lemma row_record_dom hs row : dom (row_record hs row) = list_to_set hs.
Proof.
  unfold row_record. rewrite dict_of_dom, fst_zip; [reflexivity|].
  rewrite length_map, fit_length. lia.
Qed.

(** A record comes from one row of a table with a header. *)
Lemma process_table_data_inv (data : option table_data) (table_class : string)
    (r : record) :
  r ∈ process_table_data data table_class ->
  exists header rows row,
    data = Some {| d_header := Some header; d_rows := Some rows |}
    /\ row ∈ rows /\ row <> [] /\ clean_headers header <> []
    /\ r = row_record (clean_headers header) row.
Proof.
  unfold process_table_data.
  destruct data as [[[header|] [rows|]]|]; cbn; try (intros H; now inversion H).
  destruct (nonempty header) eqn:Hne; [|intros H; now inversion H].
  destruct (nonempty (clean_headers header)) eqn:Hc; cbn [negb];
    [|intros H; now inversion H].
  intros Hr. apply list_elem_of_fmap in Hr as (row & -> & Hrow).
  apply list_elem_of_In, List.filter_In in Hrow as [Hrow Hcells].
  apply list_elem_of_In in Hrow.
  exists header, rows, row. repeat split; try assumption.
  - intros E. now rewrite E in Hcells.
  - intros E. now rewrite E in Hc.
Qed.

(** As many keys as different entries: fewer than the entries of the list
    as soon as one of them comes twice. *)
Lemma size_list_to_set_le (l : list str) :
  (size (list_to_set l : gset str) <= length l)%nat.
Proof.
  induction l as [|x l IH]; cbn [list_to_set length].
  - now rewrite size_empty.
  - rewrite size_union_alt, size_singleton.
    pose proof (subseteq_size (list_to_set l ∖ {[x]}) (list_to_set l : gset str)
                  ltac:(apply subseteq_difference_l; reflexivity)).
    lia.
Qed.

Lemma size_list_to_set_full (l : list str) :
  size (list_to_set l : gset str) = length l -> NoDup l.
Proof.
  induction l as [|x l IH]; [constructor|].
  cbn [list_to_set length]. intros H.
  pose proof (size_list_to_set_le l) as Hle.
  destruct (decide (x ∈ l)) as [Hin|Hout].
  - exfalso.
    assert (E : ({[x]} ∪ list_to_set l : gset str) = list_to_set l).
    { apply subseteq_union_1_L, singleton_subseteq_l, elem_of_list_to_set, Hin. }
    rewrite E in H. lia.
  - constructor; [exact Hout|]. apply IH.
    rewrite size_union in H by (apply disjoint_singleton_l; now rewrite elem_of_list_to_set).
    rewrite size_singleton in H. lia.
Qed.

(** C4, as amended: every record of a table has the set of the cleaned
    headers as its keys, so all records of a table have the same keys and
    no key is missing; it is built from the cells of one row of the table,
    cut to the length of the header when the row is longer and filled with
    empty cells when it is shorter.  The record has an entry for each
    different cleaned header: never more entries than headers, and as many
    entries as headers exactly when the cleaned headers differ from each
    other; headers that are cleaned to the same key share one entry, which
    holds the value of the last of their columns. *)
Theorem records_keys_are_headers (data : option table_data) (table_class : string)
    (r : record) :
  r ∈ process_table_data data table_class ->
  exists header rows row,
    data = Some {| d_header := Some header; d_rows := Some rows |}
    /\ row ∈ rows
    /\ clean_headers header <> []
    /\ let hs := clean_headers header in
       let cells := fit (length hs) row in
       r = dict_of (zip hs (map cell_value cells))
       /\ length cells = length hs
       /\ ((length hs <= length row)%nat -> cells = firstn (length hs) row)
       /\ ((length row <= length hs)%nat ->
           cells = row ++ repeat [] (length hs - length row))
       /\ dom r = list_to_set hs
       /\ (forall h, h ∈ hs -> is_Some (r !! h))
       /\ (size r <= length hs)%nat
       /\ (size r = length hs <-> NoDup hs)
       /\ (forall i h, hs !! i = Some h -> h ∉ drop (S i) hs ->
             r !! h = cell_value <$> cells !! i).
Proof.
  intros Hr.
  destruct (process_table_data_inv _ _ _ Hr)
    as (header & rows & row & -> & Hrow & _ & Hne & ->).
  exists header, rows, row. split; [reflexivity|]. split; [exact Hrow|].
  split; [exact Hne|].
  cbn zeta. split; [reflexivity|]. split; [apply fit_length|].
  split; [apply fit_long|]. split; [apply fit_short|].
  pose proof (row_record_dom (clean_headers header) row) as Hdom.
  split; [exact Hdom|]. split; [|split; [|split]].
  - intros h Hh. apply elem_of_dom. rewrite Hdom. now apply elem_of_list_to_set.
  - rewrite <- size_dom, Hdom. apply size_list_to_set_le.
  - rewrite <- size_dom, Hdom. split.
    + apply size_list_to_set_full.
    + apply size_list_to_set.
  - intros i h Hh Hlast.
    destruct (lookup_lt_is_Some_2 (fit (length (clean_headers header)) row) i) as [c Hc].
    { rewrite fit_length. eapply lookup_lt_Some, Hh. }
    rewrite Hc. cbn [fmap option_fmap option_map].
    unfold row_record. eapply dict_of_lookup; eauto.
    rewrite list_lookup_fmap, Hc. reflexivity.
Qed.

Lemma records_keys_are_headers_witness :
  exists r, r ∈ process_table_data
              (Some {| d_header := Some [chars "A"; chars "B"];
                       d_rows := Some [[chars "1"]; [chars "2"; chars "x"; chars "y"]] |})
              "notices"
            /\ dom r = list_to_set [chars "a"; chars "b"]
            /\ size r = 2%nat.
Proof.
  exists (dict_of [(chars "a", Some (chars "1")); (chars "b", None)]).
  assert (H : dict_of [(chars "a", Some (chars "1")); (chars "b", None)]
              ∈ process_table_data
                  (Some {| d_header := Some [chars "A"; chars "B"];
                           d_rows := Some [[chars "1"]; [chars "2"; chars "x"; chars "y"]] |})
                  "notices").
  { apply list_elem_of_here. }
  split; [exact H|].
  destruct (records_keys_are_headers _ _ _ H)
    as (header & rows & row & Hd & _ & _ & _ & _ & _ & _ & Hdom & _ & _ & Hsize & _).
  injection Hd as <- _. split; [exact Hdom|].
  apply (proj2 Hsize). vm_compute.
  repeat constructor; intros Hin; repeat (apply elem_of_cons in Hin as [Hin|Hin]);
    try discriminate Hin; inversion Hin.
Defined.

(** C4, as stated, fails: the headers [Case No.] and [Case Number] are
    both cleaned to [case_number], so the record of a row has one entry
    for the two of them, and the cell of the first column is lost. *)
Lemma duplicate_header_counterexample :
  ~ (forall data table_class r header rows,
       r ∈ process_table_data data table_class ->
       data = Some {| d_header := Some header; d_rows := Some rows |} ->
       clean_headers header <> [] ->
       size r = length (clean_headers header)).
Proof.
  intros H.
  specialize (H (Some {| d_header := Some [chars "Case No."; chars "Case Number"];
                         d_rows := Some [[chars "1"; chars "2"]] |})
                "notices"%string
                (dict_of [(chars "case_number", Some (chars "2"))])
                [chars "Case No."; chars "Case Number"] [[chars "1"; chars "2"]]).
  assert (Hs : size (dict_of [(chars "case_number", Some (chars "2"))])
               = length (clean_headers [chars "Case No."; chars "Case Number"])).
  { apply H; [|reflexivity|discriminate].
    replace (dict_of [(chars "case_number", Some (chars "2"))])
      with (row_record (clean_headers [chars "Case No."; chars "Case Number"])
                       [chars "1"; chars "2"]).
    - apply list_elem_of_here.
    - unfold row_record, dict_of. cbn. apply insert_insert_eq. }
  vm_compute in Hs. discriminate Hs.
Qed.

Lemma blank_cell_text c : blank_cell c -> get_text_strip c = [].
Proof.
  unfold blank_cell, get_text_strip. induction 1 as [|s c Hs _ IH]; [reflexivity|].
  cbn. unfold py_strip at 1. now rewrite strip_all.
Qed.

Lemma blank_row_texts (row : list cell) : Forall blank_cell row -> texts row = [].
Proof.
  unfold texts. induction 1 as [|c row Hc _ IH]; [reflexivity|].
  cbn. now rewrite blank_cell_text.
Qed.

(** The cells that [extract_table_data] hands on are not empty and carry
    no white space at either end. *)
Lemma get_text_strip_trimmed c :
  get_text_strip c <> [] -> trimmed py_isspace (get_text_strip c).
Proof.
  unfold get_text_strip. intros Hne. apply concat_trimmed.
  - intros E. now rewrite E in Hne.
  - apply Forall_forall. intros s Hs.
    apply list_elem_of_In, List.filter_In in Hs as [Hs Hn].
    apply in_map_iff in Hs as (s0 & <- & _).
    apply strip_trimmed. intros E. unfold py_strip in Hn. now rewrite E in Hn.
Qed.

Lemma extracted_cells_trimmed table data rows row c :
  extract_table_data table = Some data -> d_rows data = Some rows ->
  row ∈ rows -> c ∈ row -> c <> [] /\ py_strip c = c.
Proof.
  unfold extract_table_data. destruct (thead table) as [h|]; [|discriminate].
  intros [= <-]. cbn [d_rows]. intros [= <-] Hrow Hc.
  destruct (tbody table) as [trs|]; [|now inversion Hrow].
  apply list_elem_of_In, List.filter_In in Hrow as [Hrow _].
  apply in_map_iff in Hrow as (tr & <- & _).
  apply list_elem_of_In, List.filter_In in Hc as [Hc Hn].
  apply in_map_iff in Hc as (cell0 & <- & _).
  assert (Hne : get_text_strip cell0 <> []) by (intros E; now rewrite E in Hn).
  split; [exact Hne|]. now apply trimmed_fixed, get_text_strip_trimmed.
Qed.

(** C6, as amended: [process_table_data] gives no record for a row
    without cells, and a row of the page whose cells are all empty or white
    space gives no record once the table is read and normalised: what
    comes out with the row is what comes out without it, and a table with
    this row alone gives no record at all. *)
Theorem blank_row_gives_no_record (table_class : string) :
  (forall header (before after : list (list str)),
     process_table_data
       (Some {| d_header := Some header; d_rows := Some (before ++ [] :: after) |})
       table_class
     = process_table_data
         (Some {| d_header := Some header; d_rows := Some (before ++ after) |})
         table_class)
  /\ (forall head (before after : list (list cell)) (row : list cell),
        Forall blank_cell row ->
        section_records {| thead := head; tbody := Some (before ++ row :: after) |}
          table_class
        = section_records {| thead := head; tbody := Some (before ++ after) |}
            table_class
        /\ section_records {| thead := head; tbody := Some [row] |} table_class = []).
Proof.
  split.
  - intros header before after. unfold process_table_data. cbn [d_header d_rows].
    destruct (negb _); [reflexivity|].
    f_equal. rewrite (List.filter_app _ before ([] :: after)).
    now rewrite (List.filter_app _ before after).
  - intros head before after row Hrow.
    pose proof (blank_row_texts row Hrow) as Ht.
    unfold section_records, extract_table_data. cbn [thead tbody]. split.
    + rewrite !map_app, !List.filter_app. cbn [map List.filter].
      now rewrite Ht.
    + cbn [map List.filter]. rewrite Ht. cbn [nonempty].
      destruct head as [h|]; [|reflexivity].
      unfold process_table_data. cbn.
      repeat match goal with
             | |- context [if ?b then _ else _] => destruct b
             end; reflexivity.
Qed.

Lemma blank_row_gives_no_record_witness :
  section_records
    {| thead := Some {| head_th := [[chars "A"]; [chars "B"]]; head_td := [] |};
       tbody := Some [[[chars ""]; [chars "  "]]] |} "notices" = [].
Proof.
  refine (proj2 (proj2 (blank_row_gives_no_record "notices")
                   (Some {| head_th := [[chars "A"]; [chars "B"]]; head_td := [] |})
                   [] [] [[chars ""]; [chars "  "]] _)).
  repeat constructor.
Defined.

(** C6, as stated, fails: handed the raw row of an empty cell and a cell
    of white space under a header of two columns, [process_table_data]
    gives a record for it. *)
Lemma whitespace_row_counterexample :
  ~ (forall header (row : list str) table_class,
       Forall (fun c => py_strip c = []) row ->
       process_table_data
         (Some {| d_header := Some header; d_rows := Some [row] |}) table_class = []).
Proof.
  intros H.
  specialize (H [chars "A"; chars "B"] [chars ""; chars "  "] "notices"%string).
  assert (Hrow : Forall (fun c => py_strip c = []) [chars ""; chars "  "])
    by (repeat constructor).
  apply H in Hrow. vm_compute in Hrow. discriminate Hrow.
Qed.

(** The last place of an entry in a list. *)
Lemma last_occurrence (h : str) (l : list str) :
  h ∈ l -> exists j, l !! j = Some h /\ h ∉ drop (S j) l.
Proof.
  induction l as [|x l IH]; intros Hin; [inversion Hin|].
  destruct (decide (h ∈ l)) as [Hl|Hl].
  - destruct (IH Hl) as (j & Hj & Hd). exists (S j). split; assumption.
  - apply elem_of_cons in Hin as [->|Hin]; [|contradiction].
    exists 0%nat. split; [reflexivity|]. cbn. now rewrite drop_0.
Qed.

(** C9, as amended: the cell of a column whose cleaned header no later
    column repeats is stored under that header, as [None] when the cell is
    the empty string, as the cells added to a short row are, and as its
    stripped text otherwise, which is the empty string for a cell of white
    space.  The cell of a column whose cleaned header a later column
    repeats is not stored: the key holds the value of the last column with
    that header. *)
Theorem stored_cell_values (data : option table_data) (table_class : string)
    (r : record) :
  r ∈ process_table_data data table_class ->
  exists header rows row,
    data = Some {| d_header := Some header; d_rows := Some rows |}
    /\ row ∈ rows
    /\ let hs := clean_headers header in
       let cells := fit (length hs) row in
       forall i h c,
         hs !! i = Some h -> cells !! i = Some c ->
         (h ∉ drop (S i) hs ->
          (c = [] -> r !! h = Some None)
          /\ (c <> [] -> r !! h = Some (Some (py_strip c)))
          /\ (c <> [] -> py_strip c = [] -> r !! h = Some (Some [])))
         /\ (h ∈ drop (S i) hs ->
             exists j c', (i < j)%nat /\ hs !! j = Some h /\ (h ∉ drop (S j) hs)
                          /\ cells !! j = Some c' /\ r !! h = Some (cell_value c'))
         /\ ((length row <= i)%nat -> c = []).
Proof.
  intros Hr.
  destruct (process_table_data_inv _ _ _ Hr)
    as (header & rows & row & -> & Hrow & _ & _ & ->).
  exists header, rows, row. split; [reflexivity|]. split; [exact Hrow|].
  intros hs cells i h c Hh Hc. subst hs cells. set (hs := clean_headers header) in *.
  assert (Hstored : forall j c', hs !! j = Some h -> h ∉ drop (S j) hs ->
                      fit (length hs) row !! j = Some c' ->
                      row_record hs row !! h = Some (cell_value c')).
  { intros j c' Hj Hlast Hc'. unfold row_record. eapply dict_of_lookup; eauto.
    rewrite list_lookup_fmap, Hc'. reflexivity. }
  split; [|split].
  - intros Hlast. pose proof (Hstored i c Hh Hlast Hc) as Hv. repeat split.
    + intros ->. exact Hv.
    + intros Hne. rewrite Hv. destruct c; [now destruct Hne | reflexivity].
    + intros Hne Hblank. rewrite Hv. destruct c; [now destruct Hne|].
      cbn [cell_value nonempty]. now rewrite Hblank.
  - intros Hlater. destruct (last_occurrence h _ Hlater) as (j & Hj & Hlast).
    rewrite lookup_drop in Hj. rewrite drop_drop in Hlast.
    replace (S i + S j)%nat with (S (S i + j)) in Hlast by lia.
    destruct (lookup_lt_is_Some_2 (fit (length hs) row) (S i + j)) as [c' Hc'].
    { rewrite fit_length. eapply lookup_lt_Some, Hj. }
    exists (S i + j)%nat, c'. split; [lia|]. split; [exact Hj|].
    split; [exact Hlast|]. split; [exact Hc'|].
    now apply (Hstored (S i + j)%nat c').
  - intros Hi. unfold fit in Hc.
    rewrite firstn_all2 in Hc by (apply lookup_lt_Some in Hh; lia).
    destruct (length row <? length hs)%nat.
    + rewrite lookup_app_r in Hc by exact Hi.
      apply list_elem_of_lookup_2, list_elem_of_In, repeat_spec in Hc. exact Hc.
    + apply lookup_lt_Some in Hc. lia.
Qed.

Lemma stored_cell_values_witness :
  exists r,
    r ∈ process_table_data
          (Some {| d_header := Some [chars "A"; chars "B"];
                   d_rows := Some [[chars " 1 "]] |}) "notices"
    /\ r !! chars "a" = Some (Some (chars "1")) /\ r !! chars "b" = Some None.
Proof.
  exists (dict_of [(chars "a", Some (chars "1")); (chars "b", None)]).
  assert (H : dict_of [(chars "a", Some (chars "1")); (chars "b", None)]
              ∈ process_table_data
                  (Some {| d_header := Some [chars "A"; chars "B"];
                           d_rows := Some [[chars " 1 "]] |}) "notices").
  { apply list_elem_of_here. }
  split; [exact H|].
  destruct (stored_cell_values _ _ _ H) as (header & rows & row & Hd & Hrow & Hcells).
  injection Hd as <- <-. apply list_elem_of_singleton in Hrow. subst row.
  split.
  - refine (proj1 (proj2 (proj1 (Hcells 0%nat (chars "a") (chars " 1 ") eq_refl eq_refl) _)) _).
    + cbn. intros Hin. apply list_elem_of_singleton in Hin. discriminate Hin.
    + discriminate.
  - refine (proj1 (proj1 (Hcells 1%nat (chars "b") [] eq_refl eq_refl) _) eq_refl).
    cbn. intros Hin. inversion Hin.
Defined.

(** C9, as stated, fails: a cell of white space is empty after trimming,
    and the record holds the empty string for it, not [None]. *)
Lemma blank_cell_not_none_counterexample :
  ~ (forall data table_class r header rows row i h c,
       r ∈ process_table_data data table_class ->
       data = Some {| d_header := Some header; d_rows := Some rows |} ->
       rows = [row] ->
       clean_headers header !! i = Some h ->
       row !! i = Some c ->
       py_strip c = [] ->
       r !! h = Some None).
Proof.
  intros H.
  specialize (H (Some {| d_header := Some [chars "A"]; d_rows := Some [[chars "  "]] |})
                "notices"%string
                (dict_of [(chars "a", Some [])])
                [chars "A"] [[chars "  "]] [chars "  "] 0%nat (chars "a") (chars "  ")).
  assert (Hv : dict_of [(chars "a", Some [])] !! chars "a" = Some None).
  { apply H; try reflexivity. apply list_elem_of_here. }
  vm_compute in Hv. discriminate Hv.
Qed.

End TableFacts.

(** ** The order of the downloaded PDFs *)

Section SortFacts.

Context {A K : Type} (key : A -> K) (leb : K -> K -> bool).
Hypothesis leb_total : forall a b, leb a b = false -> leb b a = true.
Hypothesis leb_trans : forall a b c, leb a b = true -> leb b c = true -> leb a c = true.

Local Abbreviation ordered := (fun x y : A => leb (key x) (key y) = true).

Lemma insert_by_perm x l : Permutation (Pdf.insert_by key leb x l) (x :: l).
Proof.
  induction l as [|y l IH]; cbn; [reflexivity|].
  destruct (leb (key x) (key y)); [reflexivity|].
  rewrite IH. apply perm_swap.
Qed.

Lemma sort_by_perm l : Permutation (Pdf.sort_by key leb l) l.
Proof.
  induction l as [|x l IH]; cbn; [reflexivity|].
  rewrite insert_by_perm. now constructor.
Qed.

Lemma insert_by_sorted x l :
  StronglySorted ordered l -> StronglySorted ordered (Pdf.insert_by key leb x l).
Proof.
  induction 1 as [|y l Hl IH Hy]; cbn; [repeat constructor|].
  destruct (leb (key x) (key y)) eqn:E.
  - constructor; [now constructor|].
    constructor; [exact E|].
    eapply Forall_impl; [exact Hy|]. intros z Hz. eapply leb_trans; eauto.
  - constructor; [exact IH|].
    eapply Permutation_Forall; [symmetry; apply insert_by_perm|].
    constructor; [now apply leb_total | exact Hy].
Qed.

Lemma sort_by_sorted l : StronglySorted ordered (Pdf.sort_by key leb l).
Proof.
  induction l as [|x l IH]; cbn; [constructor | now apply insert_by_sorted].
Qed.

Lemma sorted_lookup l : StronglySorted ordered l ->
  forall i j x y, (i < j)%nat -> l !! i = Some x -> l !! j = Some y -> ordered x y.
Proof.
  induction 1 as [|z l Hl IH Hz]; intros i j x y Hij Hi Hj; [discriminate Hi|].
  destruct j as [|j]; [lia|]. cbn in Hj.
  destruct i as [|i]; cbn in Hi.
  - injection Hi as ->. rewrite Forall_forall in Hz. apply Hz.
    eapply list_elem_of_lookup_2, Hj.
  - eapply (IH i j); eauto. lia.
Qed.

Lemma insert_by_filter (p : A -> bool) x l :
  (forall y, p x = true -> p y = true -> leb (key x) (key y) = true) ->
  List.filter p (Pdf.insert_by key leb x l) = List.filter p (x :: l).
Proof.
  intros Hp. induction l as [|y l IH]; [reflexivity|].
  cbn [Pdf.insert_by]. destruct (leb (key x) (key y)) eqn:E; [reflexivity|].
  cbn [List.filter] in *. rewrite IH.
  destruct (p x) eqn:Hx, (p y) eqn:Hy; try reflexivity.
  rewrite (Hp y eq_refl Hy) in E. discriminate E.
Qed.

Lemma sort_by_filter (p : A -> bool) l :
  (forall x y, p x = true -> p y = true -> leb (key x) (key y) = true) ->
  List.filter p (Pdf.sort_by key leb l) = List.filter p l.
Proof.
  intros Hp. induction l as [|x l IH]; [reflexivity|].
  cbn [Pdf.sort_by]. rewrite insert_by_filter by (intros y; apply Hp).
  cbn [List.filter]. now rewrite IH.
Qed.

Lemma sort_by_fixed l : StronglySorted ordered l -> Pdf.sort_by key leb l = l.
Proof.
  induction 1 as [|y l Hl IH Hy]; [reflexivity|].
  cbn [Pdf.sort_by]. rewrite IH. destruct l as [|z l]; [reflexivity|].
  cbn [Pdf.insert_by]. inversion Hy as [|? ? Hz _]; subst. now rewrite Hz.
Qed.

End SortFacts.

Section PdfOrder.

Import Pdf.

Ltac bool_to_Z :=
  repeat rewrite ?orb_true_iff, ?andb_true_iff, ?orb_false_iff, ?andb_false_iff,
    ?Z.ltb_lt, ?Z.ltb_ge, ?Z.eqb_eq, ?Z.eqb_neq, ?Z.leb_le, ?Z.leb_gt in *.

Lemma dt_leb_total a b : dt_leb a b = false -> dt_leb b a = true.
Proof. destruct a, b. unfold dt_leb; cbn. bool_to_Z. lia. Qed.

Lemma dt_leb_trans a b c : dt_leb a b = true -> dt_leb b c = true -> dt_leb a c = true.
Proof. destruct a, b, c. unfold dt_leb; cbn. bool_to_Z. lia. Qed.

Lemma dt_leb_min_inv d :
  1 <= dt_year d -> 1 <= dt_month d -> 1 <= dt_day d ->
  dt_leb d datetime_min = true -> d = datetime_min.
Proof.
  destruct d as [y m dd]. unfold dt_leb, datetime_min.
  cbn [dt_year dt_month dt_day]. bool_to_Z.
  intros Hy Hm Hd H. f_equal; lia.
Qed.

Lemma first_match_Some {X Y} (f : X -> option Y) l y :
  first_match f l = Some y -> exists x, In x l /\ f x = Some y.
Proof.
  induction l as [|x l IH]; cbn; [discriminate|].
  destruct (f x) eqn:E.
  - intros [= ->]. eauto.
  - intros H. destruct (IH H) as (x' & Hin & Hx'). eauto.
Qed.

Lemma digit_range c x : digit c = Some x -> 0 <= x <= 9.
Proof.
  unfold digit, digit_val, is_digit, in_range.
  destruct ((48 <=? code c)%N && (code c <=? 57)%N) eqn:E; [|discriminate].
  apply andb_true_iff in E as [E1 E2].
  apply N.leb_le in E1, E2. intros [= <-]. lia.
Qed.

Lemma day_alternatives_pos s alt : In alt (day_alternatives s) -> 1 <= fst alt.
Proof.
  unfold day_alternatives. rewrite !in_app_iff.
  destruct s as [|a [|b r]]; cbn.
  - tauto.
  - destruct (digit a) as [x|] eqn:Ea; cbn; [|tauto].
    destruct (1 <=? x) eqn:E; cbn; [|tauto].
    apply Z.leb_le in E. intros [[]|[[]|[[]|[[<-|[]]|[]]]]]. exact E.
  - destruct (digit a) as [x|] eqn:Ea; destruct (digit b) as [y|] eqn:Eb; cbn.
    all: try (apply digit_range in Ea); try (apply digit_range in Eb).
    all: repeat match goal with
                | |- context [if ?c then _ else _] => destruct c eqn:?
                end; cbn.
    all: bool_to_Z.
    all: intuition (subst; cbn; try lia).
Qed.

Lemma match_month_pos s m r : match_month s = Some (m, r) -> 1 <= m.
Proof.
  unfold match_month. destruct s as [|a [|b [|c s]]]; try discriminate.
  destruct (List.find _ month_names) as [nm|] eqn:E; [|discriminate].
  intros [= <- _]. apply find_some in E as [Hin _].
  cbn in Hin. intuition (subst; cbn; lia).
Qed.

Lemma match_after_day_inv day s y m d r :
  match_after_day day s = Some (y, m, d, r) -> d = day /\ 1 <= m.
Proof.
  unfold match_after_day.
  destruct (match_hyphen s) as [r1|]; cbn; [|discriminate].
  destruct (match_month r1) as [[m' r2]|] eqn:Em; cbn; [|discriminate].
  destruct (match_hyphen r2) as [r3|]; cbn; [|discriminate].
  destruct (match_year r3) as [[y' r4]|]; cbn; [|discriminate].
  intros [= <- <- <- <-]. split; [reflexivity|]. eapply match_month_pos, Em.
Qed.

(** A date that was parsed is not before [datetime.min], and is
    [datetime.min] only for 1 January of the year 1. *)
Lemma strptime_after_min s d :
  strptime_d_b_Y s = Some d -> 1 <= dt_year d /\ 1 <= dt_month d /\ 1 <= dt_day d.
Proof.
  unfold strptime_d_b_Y.
  destruct (first_match _ _) as [[[[y m] dd] [|c rest]]|] eqn:E; try discriminate.
  destruct ((1 <=? y) && (dd <=? days_in_month y m)) eqn:Ev; [|discriminate].
  intros [= <-]. cbn.
  apply first_match_Some in E as (alt & Hin & Halt).
  apply match_after_day_inv in Halt as [-> Hm].
  apply day_alternatives_pos in Hin.
  apply andb_true_iff in Ev as [Hy _]. apply Z.leb_le in Hy. auto.
Qed.

Lemma min_is_least f : dt_leb datetime_min (extract_date_from_filename f) = true.
Proof.
  unfold extract_date_from_filename.
  destruct (strptime_d_b_Y (date_part f)) as [d|] eqn:E; [|reflexivity].
  apply strptime_after_min in E as (Hy & Hm & Hd).
  destruct d as [y m dd]. unfold dt_leb, datetime_min.
  cbn [dt_year dt_month dt_day] in *. bool_to_Z. lia.
Qed.

(** C2, as amended: the sorted list holds the same files; a file whose
    date cannot be parsed has the key [datetime.min], which no key is
    before; the keys go up along the sorted list; a file without date
    comes before every file whose date is parsed and is not [datetime.min]
    itself; and the files whose keys are one and the same date stand in
    the sorted list in the order they had before, so a file dated
    01-Jan-0001, whose key is [datetime.min] too, keeps its place among the
    files without date. *)
Theorem sorted_pdf_files_order (pdf_files : list str) :
  let sorted := sort_pdf_files pdf_files in
  Permutation sorted pdf_files
  /\ (forall f, date_of f = None -> extract_date_from_filename f = datetime_min)
  /\ (forall f, dt_leb datetime_min (extract_date_from_filename f) = true)
  /\ (forall i j f g, (i < j)%nat -> sorted !! i = Some f -> sorted !! j = Some g ->
        dt_leb (extract_date_from_filename f) (extract_date_from_filename g) = true)
  /\ (forall i j f g d, sorted !! i = Some f -> sorted !! j = Some g ->
        date_of f = None -> date_of g = Some d -> d <> datetime_min -> (i < j)%nat)
  /\ (forall d,
        List.filter (fun f => Download.same_date (extract_date_from_filename f) d) sorted
        = List.filter (fun f => Download.same_date (extract_date_from_filename f) d)
                      pdf_files)
  /\ (forall f d, date_of f = Some d -> d = datetime_min ->
        Download.same_date (extract_date_from_filename f) datetime_min = true).
Proof.
  pose proof (sort_by_sorted extract_date_from_filename dt_leb dt_leb_total dt_leb_trans
                pdf_files) as Hsorted.
  pose proof (sorted_lookup extract_date_from_filename dt_leb _ Hsorted) as Hlookup.
  cbn zeta. split; [apply sort_by_perm|].
  split; [|split; [apply min_is_least|split; [|split; [|split]]]].
  4:{ intros d. apply sort_by_filter. intros x y Hx Hy. unfold Download.same_date in *.
      apply andb_true_iff in Hx as [Hx _]. apply andb_true_iff in Hy as [_ Hy].
      eapply dt_leb_trans; eassumption. }
  4:{ intros f d Hf ->. unfold extract_date_from_filename, date_of in *.
      now rewrite Hf. }
  - intros f Hf. unfold extract_date_from_filename, date_of in *. now rewrite Hf.
  - intros i j f g Hij Hi Hj. eapply Hlookup; eauto.
  - intros i j f g d Hi Hj Hf Hg Hd.
    destruct (Nat.lt_trichotomy i j) as [Hlt|[->|Hgt]]; [exact Hlt| |].
    + unfold sort_pdf_files in *. rewrite Hi in Hj. injection Hj as ->. congruence.
    + exfalso. specialize (Hlookup j i g f Hgt Hj Hi).
      unfold extract_date_from_filename, date_of in *. rewrite Hf, Hg in Hlookup.
      apply Hd. pose proof (strptime_after_min _ _ Hg) as (Hy & Hm & Hdd).
      now apply dt_leb_min_inv.
Qed.

Lemma sorted_pdf_files_order_witness :
  sort_pdf_files [chars "case_pdfs/7_2021/aaOrder_05-Jan-2021.pdf";
                  chars "case_pdfs/7_2021/bbOrder_20-Mar-2020.pdf";
                  chars "case_pdfs/7_2021/ccnotice.pdf"]
  = [chars "case_pdfs/7_2021/ccnotice.pdf";
     chars "case_pdfs/7_2021/bbOrder_20-Mar-2020.pdf";
     chars "case_pdfs/7_2021/aaOrder_05-Jan-2021.pdf"]
  /\ extract_date_from_filename (chars "case_pdfs/7_2021/ccnotice.pdf") = datetime_min
  /\ dt_leb (extract_date_from_filename (chars "case_pdfs/7_2021/bbOrder_20-Mar-2020.pdf"))
            (extract_date_from_filename (chars "case_pdfs/7_2021/aaOrder_05-Jan-2021.pdf"))
     = true
  /\ (0 < 1)%nat.
Proof.
  destruct (sorted_pdf_files_order
              [chars "case_pdfs/7_2021/aaOrder_05-Jan-2021.pdf";
               chars "case_pdfs/7_2021/bbOrder_20-Mar-2020.pdf";
               chars "case_pdfs/7_2021/ccnotice.pdf"])
    as (_ & Hmin & _ & Hup & Hfirst & _).
  split; [reflexivity|]. split; [|split].
  - apply Hmin. reflexivity.
  - apply (Hup 1%nat 2%nat); [lia | reflexivity | reflexivity].
  - apply (Hfirst 0%nat 1%nat (chars "case_pdfs/7_2021/ccnotice.pdf")
             (chars "case_pdfs/7_2021/bbOrder_20-Mar-2020.pdf")
             {| dt_year := 2020; dt_month := 3; dt_day := 20 |});
      [reflexivity | reflexivity | reflexivity | reflexivity | discriminate].
Defined.

(** C2, as stated, fails: a file dated 01-Jan-0001 has the key
    [datetime.min] as well, so it stays in front of an undated file that
    was found after it. *)
Lemma undated_first_counterexample :
  ~ (forall pdf_files i j f g d,
       sort_pdf_files pdf_files !! i = Some f -> sort_pdf_files pdf_files !! j = Some g ->
       date_of f = None -> date_of g = Some d -> (i < j)%nat).
Proof.
  intros H.
  specialize (H [chars "aaOrder_01-Jan-0001.pdf"; chars "bbnotice.pdf"] 1%nat 0%nat
                (chars "bbnotice.pdf") (chars "aaOrder_01-Jan-0001.pdf") datetime_min
                eq_refl eq_refl eq_refl eq_refl).
  lia.
Qed.

End PdfOrder.

(** ** Header normalisation *)

Section HeaderFacts.

Import Header.

Lemma re_sub_cons m repl prev c s :
  re_sub m repl prev (c :: s) =
  match m prev (c :: s) with
  | Some (S n) => repl ++ re_sub m repl (last (c :: firstn n s)) (skipn n s)
  | _ => c :: re_sub m repl (Some c) s
  end.
Proof.
  rewrite re_sub_equation_2.
  destruct (m prev (c :: s)) as [[|n]|]; reflexivity.
Qed.

(** Where the pattern is not found, nothing is replaced. *)
Lemma re_sub_not_found m repl s : forall prev,
  re_search m prev s = false -> re_sub m repl prev s = s.
Proof.
  induction s as [|c s IH]; intros prev H; [reflexivity|].
  rewrite re_sub_cons. cbn in H.
  destruct (m prev (c :: s)) as [[|n]|]; try discriminate H.
  all: now rewrite IH.
Qed.

Ltac each_char c :=
  destruct c as [[] [] [] [] [] [] [] []]; vm_compute; try reflexivity; try discriminate.

Lemma canonical_not_space c : canonical_char c = true -> py_isspace c = false.
Proof. each_char c. Qed.

Lemma canonical_not_slash c : canonical_char c = true -> eqc c "/" = false.
Proof. each_char c. Qed.

Lemma canonical_lower c : canonical_char c = true -> lower_char c = c.
Proof. each_char c. Qed.

Lemma canonical_kept c : canonical_char c = true -> kept c = true.
Proof. each_char c. Qed.

Lemma canonical_not_blank c : canonical_char c = true -> eqc c " " = false.
Proof. each_char c. Qed.

Lemma kept_to_canonical c :
  kept c = true -> canonical_char (if eqc c " " then "_"%char else c) = true.
Proof. each_char c. Qed.

Lemma slash_not_found s : forall prev,
  Forall (fun c => canonical_char c = true) s -> re_search m_slash prev s = false.
Proof.
  induction s as [|c s IH]; intros prev H; [reflexivity|].
  inversion H as [|? ? Hc Hs]; subst. cbn [re_search].
  unfold m_slash. cbn [lstrip_by].
  rewrite (canonical_not_space c Hc), (canonical_not_slash c Hc). now apply IH.
Qed.

Lemma other_not_found s : forall prev,
  Forall (fun c => canonical_char c = true) s -> re_search m_other prev s = false.
Proof.
  induction s as [|c s IH]; intros prev H; [reflexivity|].
  inversion H as [|? ? Hc Hs]; subst. cbn [re_search m_other].
  rewrite (canonical_kept c Hc). now apply IH.
Qed.

Lemma lower_canonical s :
  Forall (fun c => canonical_char c = true) s -> py_lower s = s.
Proof.
  induction 1 as [|c s Hc _ IH]; [reflexivity|].
  cbn. rewrite (canonical_lower c Hc). f_equal. exact IH.
Qed.

Lemma spaces_canonical s :
  Forall (fun c => canonical_char c = true) s -> spaces_to_underscores s = s.
Proof.
  induction 1 as [|c s Hc _ IH]; [reflexivity|].
  cbn. rewrite (canonical_not_blank c Hc). f_equal. exact IH.
Qed.

(** What the fourth and fifth steps leave. *)
Lemma other_removed s : forall prev,
  Forall (fun c => kept c = true) (re_sub m_other [] prev s).
Proof.
  induction s as [|c s IH]; intros prev; [constructor|].
  rewrite re_sub_cons. cbn [m_other].
  destruct (kept c) eqn:E; [constructor; auto|].
  cbn. apply IH.
Qed.

Lemma spaces_replaced s :
  Forall (fun c => kept c = true) s ->
  Forall (fun c => canonical_char c = true) (spaces_to_underscores s).
Proof.
  induction 1 as [|c s Hc _ IH]; [constructor|].
  cbn. constructor; [now apply kept_to_canonical | exact IH].
Qed.

Lemma underscore_is c : is_underscore c = true -> c = "_"%char.
Proof. apply eqc_true. Qed.

(** A run of underscores becomes one underscore and the scan goes on
    behind the run. *)
Lemma collapse_cons prev c s :
  re_sub m_underscores (chars "_") prev (c :: s) =
  if is_underscore c
  then "_"%char :: re_sub m_underscores (chars "_")
                     (last (c :: firstn (length s - length (lstrip_by is_underscore s)) s))
                     (lstrip_by is_underscore s)
  else c :: re_sub m_underscores (chars "_") (Some c) s.
Proof.
  rewrite re_sub_cons. unfold m_underscores. cbn [lstrip_by].
  destruct (is_underscore c).
  - pose proof (lstrip_length is_underscore s).
    cbn [length].
    replace (S (length s) - length (lstrip_by is_underscore s))%nat
      with (S (length s - length (lstrip_by is_underscore s))) by lia.
    now rewrite lstrip_suffix.
  - now rewrite Nat.sub_diag.
Qed.

Lemma collapse_canonical : forall s prev,
  Forall (fun c => canonical_char c = true) s ->
  Forall (fun c => canonical_char c = true) (re_sub m_underscores (chars "_") prev s).
Proof.
  intros s. induction s as [s IH] using by_length. intros prev Hs.
  destruct s as [|c s]; [constructor|].
  inversion Hs as [|? ? Hc Hs']; subst.
  rewrite collapse_cons. destruct (is_underscore c).
  - constructor; [reflexivity|]. apply IH.
    + pose proof (lstrip_length is_underscore s). cbn. lia.
    + rewrite <- lstrip_suffix. now apply Forall_drop.
  - constructor; [exact Hc|]. apply IH; [cbn; lia | exact Hs'].
Qed.

Lemma collapse_first s prev :
  no_underscore_first s = true ->
  no_underscore_first (re_sub m_underscores (chars "_") prev s) = true.
Proof.
  destruct s as [|c s]; [reflexivity|]. cbn [no_underscore_first].
  rewrite collapse_cons. intros H. apply negb_true_iff in H. rewrite H.
  cbn. now rewrite H.
Qed.

Lemma single_two a b t :
  single_underscores (a :: b :: t)
  = negb (is_underscore a && is_underscore b) && single_underscores (b :: t).
Proof. reflexivity. Qed.

Lemma single_tail a t : single_underscores (a :: t) = true -> single_underscores t = true.
Proof.
  destruct t as [|b t]; [reflexivity|]. rewrite single_two.
  intros H. now apply andb_true_iff in H as [_ H].
Qed.

Lemma single_cons a t :
  is_underscore a = false \/ no_underscore_first t = true ->
  single_underscores t = true -> single_underscores (a :: t) = true.
Proof.
  intros H Ht. destruct t as [|b t]; [reflexivity|].
  rewrite single_two, Ht, andb_true_r.
  apply negb_true_iff, andb_false_iff.
  destruct H as [H|H]; [now left|].
  right. now apply negb_true_iff in H.
Qed.

Lemma lstrip_no_underscore_first s :
  no_underscore_first (lstrip_by is_underscore s) = true.
Proof.
  pose proof (lstrip_first is_underscore s) as H.
  destruct (lstrip_by is_underscore s); [reflexivity|]. cbn. now rewrite H.
Qed.

(** The sixth step leaves no two underscores in a row. *)
Lemma collapse_single : forall s prev,
  single_underscores (re_sub m_underscores (chars "_") prev s) = true.
Proof.
  intros s. induction s as [s IH] using by_length. intros prev.
  destruct s as [|c s]; [reflexivity|].
  rewrite collapse_cons. destruct (is_underscore c) eqn:E.
  - apply single_cons.
    + right. apply collapse_first, lstrip_no_underscore_first.
    + apply IH. pose proof (lstrip_length is_underscore s). cbn. lia.
  - apply single_cons; [now left|]. apply IH. cbn. lia.
Qed.

(** Underscores that stand alone are left as they are. *)
Lemma collapse_fixed s : forall prev,
  single_underscores s = true -> re_sub m_underscores (chars "_") prev s = s.
Proof.
  induction s as [|c s IH]; intros prev H; [reflexivity|].
  rewrite collapse_cons.
  pose proof (single_tail c s H) as Hs.
  destruct (is_underscore c) eqn:E.
  - rewrite lstrip_fixed.
    + rewrite IH by exact Hs. now rewrite (underscore_is c E).
    + destruct s as [|b s]; [exact I|].
      rewrite single_two, E in H. apply andb_true_iff in H as [H _].
      apply negb_true_iff in H. exact H.
  - now rewrite IH.
Qed.

Lemma single_app a b :
  single_underscores (a ++ b) = true ->
  single_underscores a = true /\ single_underscores b = true.
Proof.
  induction a as [|x a IH]; cbn [app]; [now split|].
  intros H.
  destruct (IH (single_tail _ _ H)) as [Ha Hb]. split; [|exact Hb].
  destruct a as [|y a]; [reflexivity|].
  cbn [app] in H. rewrite single_two in *. apply andb_true_iff in H as [H _].
  now rewrite H, Ha.
Qed.

(** A cleaned header consists of the characters [[a-z0-9|_]], has no two
    underscores in a row, and neither starts nor ends with one. *)
Lemma clean_header_canonical s :
  Forall (fun c => canonical_char c = true) (clean_header s)
  /\ single_underscores (clean_header s) = true
  /\ strip_by is_underscore (clean_header s) = clean_header s.
Proof.
  unfold clean_header.
  set (s5 := spaces_to_underscores _).
  assert (H5 : Forall (fun c => canonical_char c = true) s5)
    by apply spaces_replaced, other_removed.
  pose proof (collapse_canonical s5 None H5) as H6.
  pose proof (collapse_single s5 None) as S6.
  set (s6 := re_sub m_underscores (chars "_") None s5) in *.
  destruct (strip_part is_underscore s6) as [(w & z & Hs6) Hfix].
  rewrite Hs6 in H6, S6.
  apply Forall_app in H6 as [_ H6]. apply Forall_app in H6 as [H6 _].
  apply single_app in S6 as [_ S6]. apply single_app in S6 as [S6 _].
  auto.
Qed.

(** C3, as amended: normalising a header always gives a result, and
    normalising the result again gives the same text whenever the result
    holds no [no] that stands as a word of its own, that is, whenever the
    pattern of the second step is not found in it. *)
Theorem clean_header_fixed_point (s : str) :
  re_search m_no None (clean_header s) = false ->
  clean_header (clean_header s) = clean_header s.
Proof.
  intros Hno.
  destruct (clean_header_canonical s) as (Hc & Hs & Hstrip).
  set (y := clean_header s) in *.
  unfold clean_header.
  rewrite (re_sub_not_found m_slash _ y None (slash_not_found y None Hc)).
  rewrite (re_sub_not_found m_no _ y None Hno).
  rewrite (lower_canonical y Hc).
  rewrite (re_sub_not_found m_other _ y None (other_not_found y None Hc)).
  rewrite (spaces_canonical y Hc).
  rewrite (collapse_fixed y None Hs).
  exact Hstrip.
Qed.

Lemma clean_header_fixed_point_witness :
  clean_header (chars "Case No. / Year") = chars "case_number_|_year"
  /\ clean_header (clean_header (chars "Case No. / Year"))
     = clean_header (chars "Case No. / Year").
Proof.
  split; [reflexivity|].
  apply (clean_header_fixed_point (chars "Case No. / Year")). reflexivity.
Defined.

(** C3, as stated, fails: the header [n.o] is cleaned to [no], and [no]
    is cleaned to [number]. *)
Lemma clean_header_idempotent_counterexample :
  ~ (forall s, clean_header (clean_header s) = clean_header s).
Proof.
  intros H. specialize (H (chars "n.o")). vm_compute in H. discriminate H.
Qed.

End HeaderFacts.

(** * Further properties *)

(** ** [solve_expression] *)

Section SolveMore.

Import Captcha Words.

(** The pieces are one more than the separators. *)
Lemma split_from_count c s : forall cur,
  length (split_from [c] cur s) = S (count_char c s).
Proof.
  induction s as [|x s IH]; intros cur; [reflexivity|].
  rewrite split_from_equation_2. cbn [startswith]. unfold count_char. cbn [List.filter].
  destruct (eqc c x); cbn.
  - simp split_from. cbn. f_equal. apply IH.
  - simp split_from. apply IH.
Qed.

Lemma split_from_joined c a b : forall cur,
  contains_char c a = false -> contains_char c b = false ->
  split_from [c] cur (a ++ c :: b) = [rev cur ++ a; b].
Proof.
  induction a as [|x a IH]; intros cur Ha Hb.
  - cbn [app]. rewrite split_from_equation_2. cbn [startswith].
    rewrite (proj2 (eqc_true c c) eq_refl). cbn. simp split_from. cbn.
    rewrite split_from_absent by exact Hb. now rewrite app_nil_r.
  - cbn in Ha. apply orb_false_iff in Ha as [Hx Ha].
    cbn [app]. rewrite split_from_equation_2. cbn [startswith]. rewrite Hx. cbn.
    simp split_from. rewrite IH by assumption. cbn. now rewrite <- app_assoc.
Qed.

Lemma contains_app c a b :
  contains_char c (a ++ b) = contains_char c a || contains_char c b.
Proof. unfold contains_char. apply existsb_app. Qed.

(** X1: two operand texts joined by the operator are solved: the sum for
    [+], and the difference for [-] when neither text holds a [+]; the
    operand texts must not hold the operator themselves. *)
Theorem solve_joined_operands (a b : str) (x y : Z) :
  py_int (py_strip a) = Some x -> py_int (py_strip b) = Some y ->
  (contains_char "+" a = false -> contains_char "+" b = false ->
   solve_expression (a ++ chars "+" ++ b) = SInt (x + y))
  /\ (contains_char "+" a = false -> contains_char "+" b = false ->
      contains_char "-" a = false -> contains_char "-" b = false ->
      solve_expression (a ++ chars "-" ++ b) = SInt (x - y)).
Proof.
  intros Hx Hy. split.
  - intros Ha Hb. apply (solve_plus _ a b x y); try assumption.
    exact (split_from_joined "+" a b [] Ha Hb).
  - intros Ha Hb Ha' Hb'. apply (solve_minus _ a b x y); try assumption.
    + change (a ++ chars "-" ++ b) with (a ++ "-"%char :: b).
      rewrite contains_app, Ha. cbn [contains_char existsb orb].
      change (eqc "+" "-") with false. exact Hb.
    + exact (split_from_joined "-" a b [] Ha' Hb').
Qed.

Lemma solve_joined_operands_witness :
  solve_expression (chars " 12 " ++ chars "+" ++ chars " -7") = SInt (12 + -7)
  /\ solve_expression (chars "20" ++ chars "-" ++ chars "35 ") = SInt (20 - 35).
Proof.
  split.
  - apply (proj1 (solve_joined_operands (chars " 12 ") (chars " -7") 12 (-7)
                    eq_refl eq_refl)); reflexivity.
  - apply (proj2 (solve_joined_operands (chars "20") (chars "35 ") 20 35
                    eq_refl eq_refl)); reflexivity.
Defined.

(** X2: an integer is returned only for a text that holds its operator
    exactly once: one [+], or no [+] and one [-].  So a subtraction with a
    negative operand, which holds two [-], is a parse failure. *)
Theorem solve_needs_one_operator (text : str) (z : Z) :
  solve_expression text = SInt z ->
  count_char "+" text = 1%nat
  \/ (count_char "+" text = 0%nat /\ count_char "-" text = 1%nat).
Proof.
  unfold solve_expression, solve_try.
  assert (Hplus : contains_char "+" text = false -> count_char "+" text = 0%nat).
  { unfold contains_char, count_char. induction text as [|c t IH]; [reflexivity|].
    cbn. intros H. apply orb_false_iff in H as [-> H]. now apply IH. }
  destruct (contains_char "+" text) eqn:Hp; cbn zeta.
  - pose proof (split_from_count "+" text []) as Hn. unfold py_split.
    rewrite length_map.
    destruct (length (split_from [ascii_of_N 43] [] text) =? 2)%nat eqn:E.
    + apply Nat.eqb_eq in E. intros _. left.
      change (chars "+") with [ascii_of_N 43] in *.
      change "+"%char with (ascii_of_N 43) in *. lia.
    + change (chars "+") with [ascii_of_N 43]. rewrite E. discriminate.
  - pose proof (split_from_count "-" text []) as Hn. unfold py_split.
    rewrite length_map.
    destruct (length (split_from [ascii_of_N 45] [] text) =? 2)%nat eqn:E.
    + apply Nat.eqb_eq in E. intros _. right. split; [now apply Hplus|].
      change "-"%char with (ascii_of_N 45) in *. lia.
    + change (chars "-") with [ascii_of_N 45]. rewrite E. discriminate.
Qed.

Lemma solve_needs_one_operator_witness :
  count_char "+" (chars "20 - 35") = 0%nat /\ count_char "-" (chars "20 - 35") = 1%nat.
Proof.
  destruct (solve_needs_one_operator (chars "20 - 35") (-15) eq_refl) as [H|H].
  - vm_compute in H. discriminate H.
  - exact H.
Defined.

End SolveMore.

(** ** [retry_captcha_process] *)

Section RetryMore.

Import Captcha Words.

Lemma retry_induction (w : world) (P : nat -> nat -> py_value * list event -> Prop) :
  (forall a m, (m <= a)%nat -> P a m exhausted) ->
  (forall a m, (a < m)%nat ->
     P (S a) default_max_attempts (retry_captcha_process w (S a) default_max_attempts) ->
     P a m (attempt_body (w a) a (retry_captcha_process w (S a) default_max_attempts))) ->
  forall a m, P a m (retry_captcha_process w a m).
Proof.
  intros Hend Hstep a m.
  remember (retry_budget a m) as n eqn:Hn. revert a m Hn.
  induction n as [n IH] using lt_wf_ind. intros a m ->.
  rewrite retry_unfold. destruct (m <=? a)%nat eqn:E.
  - apply Hend. now apply Nat.leb_le.
  - apply Nat.leb_gt in E. apply Hstep; [exact E|].
    apply (IH (retry_budget (S a) default_max_attempts)); [|reflexivity].
    unfold retry_budget, default_max_attempts.
    replace (m <=? a)%nat with false by (symmetry; apply Nat.leb_gt; lia).
    destruct (20 <=? S a)%nat eqn:E'; [lia|]. apply Nat.leb_gt in E'. lia.
Qed.

Lemma submitted_app evs evs' : submitted (evs ++ evs') = submitted evs ++ submitted evs'.
Proof. unfold submitted. apply flat_map_app. Qed.

Lemma after_submit_submitted o : submitted (snd (after_submit o)) = [].
Proof.
  unfold after_submit. cbn. destruct (results o) as [msg|[d|]]; reflexivity.
Qed.

Lemma after_submit_read_attempts o : read_attempts (snd (after_submit o)) = [].
Proof.
  unfold after_submit. cbn. destruct (results o) as [msg|[d|]]; reflexivity.
Qed.

(** What is not a parse failure is an integer. *)
Lemma not_failure_is_int text :
  is_parse_failure (solve_expression text) = false ->
  exists z, solve_expression text = SInt z.
Proof.
  unfold solve_expression. destruct (solve_try text) as [e|z]; [|eauto].
  cbn. discriminate.
Qed.

(** X3: during one lookup the search form is submitted at most once, and
    what is typed into the CAPTCHA field is always an integer, never the
    text of an error. *)
Theorem submits_once_an_integer (w : world) (attempt max_attempts : nat) :
  let evs := snd (retry_captcha_process w attempt max_attempts) in
  (length (submitted evs) <= 1)%nat
  /\ Forall (fun r => exists z, r = SInt z) (submitted evs).
Proof.
  cbn zeta.
  apply (retry_induction w (fun _ _ out =>
           (length (submitted (snd out)) <= 1)%nat
           /\ Forall (fun r => exists z, r = SInt z) (submitted (snd out)))).
  - intros a m _. cbn. split; [lia | constructor].
  - intros a m _ [IHn IHf]. unfold attempt_body.
    destruct (captcha_image (w a)); [|cbn; split; [lia | constructor]].
    cbn zeta. destruct (is_parse_failure _) eqn:E.
    + destruct (refresh (w a)); cbn [snd]; repeat rewrite submitted_app; cbn.
      * split; assumption.
      * split; [lia | constructor].
    + destruct (submit (w a)); cbn [snd]; repeat rewrite submitted_app;
        try rewrite after_submit_submitted; cbn.
      * split; [lia|]. constructor; [|constructor]. now apply not_failure_is_int.
      * split; [lia | constructor].
Qed.

Lemma failures_from (w : world) (a : nat) : fails_from w a ->
  forall k a', (a <= a')%nat -> (a' + k = default_max_attempts)%nat ->
    read_attempts (snd (retry_captcha_process w a' default_max_attempts)) = seq a' k.
Proof.
  intros Hw. induction k as [|k IH]; intros a' Ha Hk; rewrite retry_unfold.
  - replace (default_max_attempts <=? a')%nat with true
      by (symmetry; apply Nat.leb_le; lia).
    reflexivity.
  - replace (default_max_attempts <=? a')%nat with false
      by (symmetry; apply Nat.leb_gt; lia).
    destruct (Hw a' Ha) as (Hi & Hp & Hr).
    rewrite failing_attempt_body by assumption.
    cbn [snd]. rewrite read_attempts_app, (IH (S a')) by lia. reflexivity.
Qed.

(** X4: the bound that a caller passes only guards the first entry, since
    the retry calls itself without it.  No more images are read than the
    first entry and the default bound allow; and when every text fails to
    parse, a call that gets past its own bound reads on up to attempt 19,
    whatever bound it was given. *)
Theorem retry_forgets_max_attempts (w : world) (attempt max_attempts : nat) :
  (image_reads (snd (retry_captcha_process w attempt max_attempts))
   <= retry_budget attempt max_attempts)%nat
  /\ ((attempt < max_attempts)%nat -> fails_from w attempt ->
      read_attempts (snd (retry_captcha_process w attempt max_attempts))
      = seq attempt (S (default_max_attempts - S attempt))).
Proof.
  split.
  - rewrite retry_unfold. unfold retry_budget.
    destruct (max_attempts <=? attempt)%nat; [cbn; lia|].
    etransitivity; [apply attempt_body_reads|].
    pose proof (reads_bounded w (default_max_attempts - S attempt) (S attempt) eq_refl).
    lia.
  - intros Hlt Hw. rewrite retry_unfold.
    replace (max_attempts <=? attempt)%nat with false
      by (symmetry; apply Nat.leb_gt; lia).
    destruct (Hw attempt (Nat.le_refl _)) as (Hi & Hp & Hr).
    rewrite failing_attempt_body by assumption.
    cbn [snd]. rewrite read_attempts_app. cbn [read_attempts flat_map app seq].
    f_equal.
    destruct (Nat.le_gt_cases default_max_attempts (S attempt)) as [Hge|Hlt'].
    + rewrite retry_unfold.
      replace (default_max_attempts <=? S attempt)%nat with true
        by (symmetry; apply Nat.leb_le; lia).
      replace (default_max_attempts - S attempt)%nat with 0%nat by lia.
      reflexivity.
    + apply (failures_from w attempt Hw); lia.
Qed.

Lemma retry_forgets_max_attempts_witness :
  fails_from unreadable 0
  /\ read_attempts (snd (retry_captcha_process unreadable 0 5)) = seq 0 20.
Proof.
  assert (H : fails_from unreadable 0) by (intros n _; repeat split; reflexivity).
  split; [exact H|].
  apply (proj2 (retry_forgets_max_attempts unreadable 0 5)); [lia | exact H].
Defined.

(** X5: a lookup returns a case record exactly when its first attempt
    goes through: the bound is not reached, the image is taken, its text
    parses, the search is submitted and the result table yields the record.
    Then one image was read and nothing else. *)
Theorem record_only_on_first_try (w : world) (attempt max_attempts : nat)
    (d : case_data) :
  (fst (retry_captcha_process w attempt max_attempts) = PData d
   <-> ((attempt < max_attempts)%nat
        /\ captcha_image (w attempt) = Done
        /\ is_parse_failure (solve_expression (ocr_text (w attempt))) = false
        /\ submit (w attempt) = Done
        /\ results (w attempt) = TableReturns (Some d)))
  /\ (fst (retry_captcha_process w attempt max_attempts) = PData d ->
      read_attempts (snd (retry_captcha_process w attempt max_attempts)) = [attempt]).
Proof.
  rewrite retry_unfold. destruct (max_attempts <=? attempt)%nat eqn:E.
  - apply Nat.leb_le in E. split; [split|]; cbn; try discriminate.
    intros (Hlt & _). lia.
  - apply Nat.leb_gt in E. unfold attempt_body.
    destruct (captcha_image (w attempt)) as [|msg].
    2:{ split; [split|]; cbn; try discriminate. intros (_ & H & _). discriminate H. }
    cbn zeta. destruct (is_parse_failure _) eqn:Hp.
    { destruct (refresh (w attempt)); (split; [split|]); cbn; try discriminate;
        intros (_ & _ & H & _); discriminate H. }
    destruct (submit (w attempt)) as [|msg].
    2:{ split; [split|]; cbn; try discriminate. intros (_ & _ & _ & H & _). discriminate H. }
    cbn [fst snd]. rewrite !read_attempts_app, after_submit_read_attempts.
    unfold after_submit. cbn.
    destruct (results (w attempt)) as [msg|[d'|]]; cbn.
    all: split; [split|]; try discriminate; try reflexivity.
    all: try (intros (_ & _ & _ & _ & H); discriminate H).
    + intros [= ->]. auto.
    + intros (_ & _ & _ & _ & [= ->]). reflexivity.
Qed.

Lemma record_only_on_first_try_witness :
  fst (case_lookup (found_at_once (Driver.found "7"))) = PData (Driver.found "7")
  /\ read_attempts (snd (case_lookup (found_at_once (Driver.found "7")))) = [0%nat].
Proof.
  assert (H : fst (case_lookup (found_at_once (Driver.found "7")))
              = PData (Driver.found "7")).
  { apply (proj2 (proj1 (record_only_on_first_try _ 0 default_max_attempts _))).
    repeat split. unfold default_max_attempts. lia. }
  split; [exact H|].
  exact (proj2 (record_only_on_first_try _ 0 default_max_attempts _) H).
Defined.

End RetryMore.

(** ** The driver loop and the crawl *)

Section CrawlMore.

Import Captcha Driver Crawl.

Lemma misses_step lookup current k :
  misses lookup current (S k)
  = ((if truthy (lookup current) then 0 else 1) + misses lookup (S current) k)%nat.
Proof.
  unfold misses. change (seq current (S k)) with (current :: seq (S current) k).
  cbn [List.filter]. now destruct (truthy (lookup current)).
Qed.

Lemma records_year lookup from_year current k :
  Forall (fun d => cd_year d = Some from_year) (records lookup from_year current k).
Proof.
  unfold records. revert current. induction k as [|k IH]; intros current; [constructor|].
  change (seq current (S k)) with (current :: seq (S current) k). cbn [flat_map].
  apply Forall_app. split; [|apply IH].
  destruct (lookup current); repeat constructor.
Qed.

(** X6: when the loop of a year ends, it has looked up the diary numbers
    1 to [k + 1] for some [k]; among the first [k] exactly ten had no
    result, wherever they lie; the records found among these [k] are
    stored, each with the year of the loop; and the last lookup was made
    without its result being used. *)
Theorem year_loop_end_state (fuel : nat) (lookup : nat -> py_value) (from_year : Z)
    (st : loop_state) :
  year_loop fuel lookup from_year = Some st ->
  exists k,
    looked_up st = rev (seq 1 (S k))
    /\ misses lookup 1 k = 10%nat
    /\ stored st = rev (records lookup from_year 1 k)
    /\ Forall (fun d => cd_year d = Some from_year) (stored st).
Proof.
  unfold year_loop. intros H.
  apply inner_loop_ends in H; [|lia]. destruct H as (k & Hl & Hm & Hs).
  cbn [looked_up stored] in *. rewrite app_nil_r in Hl, Hs.
  exists k. repeat split; try assumption.
  rewrite Hs. apply Forall_rev, records_year.
Qed.

Lemma year_loop_end_state_witness :
  exists k, misses two_cases 1 k = 10%nat
            /\ rev (records two_cases 2025 1 k) = [with_year (found "2") 2025].
Proof.
  destruct (year_loop_end_state 100 two_cases 2025
              {| looked_up := rev (seq 1 12); stored := [with_year (found "2") 2025] |}
              eq_refl) as (k & _ & Hm & Hs & _).
  exists k. split; [exact Hm | now rewrite <- Hs].
Defined.

(** On lookups that return and insertions that work, the loop of a year is
    [inner_loop]. *)
Lemma inner_crawl_calm lookup from_year : forall fuel current count st,
  inner_crawl fuel (calm lookup) stores from_year current count st
  = option_map Ended (inner_loop fuel lookup from_year current count st).
Proof.
  induction fuel as [|fuel IH]; intros current count st; [reflexivity|].
  cbn [inner_crawl inner_loop calm stores].
  destruct (count =? 10)%nat; [reflexivity|].
  destruct (lookup current); apply IH.
Qed.

Lemma year_crawl_calm lookup from_year fuel :
  year_crawl fuel (calm lookup) stores from_year
  = option_map Ended (year_loop fuel lookup from_year).
Proof. apply inner_crawl_calm. Qed.

Section CrawlYear.

Variable lookup : nat -> outcome.
Variable insert_one : case_data -> step.
Variable from_year : Z.

Local Abbreviation op := (fun n => returned (lookup n)).



(** The loop returns for no other reason. *)
Lemma crawl_returns_inv : forall fuel current count st e,
  (count <= 10)%nat ->
  inner_crawl fuel lookup insert_one from_year current count st = Some e ->
  (exists m, trouble lookup insert_one from_year (current + m) = true)
  \/ (exists k, (10 <= count + misses op current k)%nat).
Proof.
  induction fuel as [|fuel IH]; intros current count st e Hc H; [discriminate H|].
  cbn [inner_crawl] in H.
  destruct (lookup current) as [v|msg] eqn:Hl.
  2:{ left. exists 0%nat. unfold trouble. now rewrite Nat.add_0_r, Hl. }
  destruct (count =? 10)%nat eqn:E.
  { apply Nat.eqb_eq in E. right. exists 0%nat. lia. }
  apply Nat.eqb_neq in E.
  assert (Hnext : forall count',
             (count' <= 10)%nat ->
             (count' = count + (if truthy v then 0 else 1))%nat ->
             (exists m, trouble lookup insert_one from_year (S current + m) = true)
             \/ (exists k, (10 <= count' + misses op (S current) k)%nat) ->
             (exists m, trouble lookup insert_one from_year (current + m) = true)
             \/ (exists k, (10 <= count + misses op current k)%nat)).
  { intros count' _ Hcount [[m Hm]|[k Hk]].
    - left. exists (S m). now rewrite Nat.add_succ_r, <- Nat.add_succ_l.
    - right. exists (S k). rewrite misses_step. cbn [returned]. rewrite Hl.
      cbn [returned]. lia. }
  destruct v as [| |d].
  - apply IH in H; [|lia]. apply (Hnext (S count)); [lia | cbn; lia | exact H].
  - apply IH in H; [|lia]. apply (Hnext (S count)); [lia | cbn; lia | exact H].
  - destruct (insert_one (with_year d from_year)) eqn:Hi.
    + apply IH in H; [|lia]. apply (Hnext count); [lia | cbn; lia | exact H].
    + left. exists 0%nat. unfold trouble. now rewrite Nat.add_0_r, Hl, Hi.
Qed.

(** Where and why the loop is ended by an exception. *)
Lemma crawl_crash_inv : forall fuel current count st st' msg,
  inner_crawl fuel lookup insert_one from_year current count st = Some (Crashed st' msg) ->
  exists m,
    looked_up st' = rev (seq current (S m)) ++ looked_up st
    /\ (lookup (current + m) = Raised msg
        \/ exists d, lookup (current + m) = Returned (PData d)
                     /\ insert_one (with_year d from_year) = Raises msg).
Proof.
  induction fuel as [|fuel IH]; intros current count st st' msg H; [discriminate H|].
  cbn [inner_crawl] in H.
  assert (Hnext : forall st1,
             looked_up st1 = current :: looked_up st ->
             (exists m,
                 looked_up st' = rev (seq (S current) (S m)) ++ looked_up st1
                 /\ (lookup (S current + m) = Raised msg
                     \/ exists d, lookup (S current + m) = Returned (PData d)
                                  /\ insert_one (with_year d from_year) = Raises msg)) ->
             exists m,
               looked_up st' = rev (seq current (S m)) ++ looked_up st
               /\ (lookup (current + m) = Raised msg
                   \/ exists d, lookup (current + m) = Returned (PData d)
                                /\ insert_one (with_year d from_year) = Raises msg)).
  { intros st1 Hst1 (m & Hl & Hcause). exists (S m). split.
    - rewrite Hl, Hst1.
      change (seq current (S (S m))) with (current :: seq (S current) (S m)).
      change (rev (current :: seq (S current) (S m)))
        with (rev (seq (S current) (S m)) ++ [current]).
      now rewrite <- app_assoc.
    - now rewrite Nat.add_succ_r, <- Nat.add_succ_l. }
  destruct (lookup current) as [v|msg'] eqn:Hl.
  2:{ injection H as <- <-. exists 0%nat. split; [reflexivity|].
      left. now rewrite Nat.add_0_r. }
  destruct (count =? 10)%nat; [discriminate H|].
  destruct v as [| |d].
  - apply IH in H. eapply Hnext; [|exact H]. reflexivity.
  - apply IH in H. eapply Hnext; [|exact H]. reflexivity.
  - destruct (insert_one (with_year d from_year)) eqn:Hi.
    + apply IH in H. eapply Hnext; [|exact H]. reflexivity.
    + injection H as <- <-. exists 0%nat. split; [reflexivity|].
      right. exists d. now rewrite Nat.add_0_r.
Qed.

(** The records stored carry the year of the loop. *)
Lemma crawl_stored_year : forall fuel current count st e,
  inner_crawl fuel lookup insert_one from_year current count st = Some e ->
  Forall (fun d => cd_year d = Some from_year) (stored st) ->
  Forall (fun d => cd_year d = Some from_year)
         (stored match e with Ended st' | Crashed st' _ => st' end).
Proof.
  induction fuel as [|fuel IH]; intros current count st e H Hst; [discriminate H|].
  cbn [inner_crawl] in H.
  destruct (lookup current) as [v|msg']; [|now injection H as <-].
  destruct (count =? 10)%nat; [now injection H as <-|].
  destruct v as [| |d]; try (eapply IH; [exact H | exact Hst]).
  destruct (insert_one (with_year d from_year)); [|now injection H as <-].
  eapply IH; [exact H|]. cbn [stored]. now constructor.
Qed.

End CrawlYear.



Lemma main_loop_finished inner_fuel lookup insert_one : forall fuel from_year done log,
  main_loop fuel inner_fuel lookup insert_one from_year done = Some (Finished log) ->
  map fst log = rev (years_down from_year) ++ map fst done
  /\ (Forall (fun ys => Forall (fun d => cd_year d = Some (fst ys)) (stored (snd ys))) done ->
      Forall (fun ys => Forall (fun d => cd_year d = Some (fst ys)) (stored (snd ys))) log).
Proof.
  induction fuel as [|fuel IH]; intros from_year done log H; [discriminate H|].
  cbn [main_loop] in H. destruct (2020 <=? from_year) eqn:E.
  - apply Z.leb_le in E.
    destruct (year_crawl inner_fuel (lookup from_year) insert_one from_year)
      as [[st|st msg]|] eqn:Hy; try discriminate H.
    apply IH in H as [Hyears Hstamp]. split.
    + rewrite Hyears. cbn [map fst].
      unfold years_down.
      replace (Z.to_nat (from_year - 2019)) with (S (Z.to_nat (from_year - 1 - 2019))) by lia.
      cbn [seq map]. rewrite <- seq_shift, map_map. cbn [rev].
      rewrite <- app_assoc. cbn [app]. f_equal.
      * f_equal. apply map_ext. intros i. lia.
      * f_equal. lia.
    + intros Hd. apply Hstamp. constructor; [|exact Hd]. cbn [fst snd].
      apply (crawl_stored_year _ _ _ _ _ _ _ _ Hy). constructor.
  - apply Z.leb_gt in E. injection H as <-. split; [|auto].
    unfold years_down. replace (Z.to_nat (from_year - 2019)) with 0%nat by lia.
    reflexivity.
Qed.

Lemma main_loop_aborted inner_fuel lookup insert_one :
  forall fuel from_year done log year st msg,
  main_loop fuel inner_fuel lookup insert_one from_year done = Some (Aborted log year st msg) ->
  2020 <= year <= from_year
  /\ map fst log = rev (years_between from_year year) ++ map fst done
  /\ year_crawl inner_fuel (lookup year) insert_one year = Some (Crashed st msg).
Proof.
  induction fuel as [|fuel IH]; intros from_year done log year st msg H; [discriminate H|].
  cbn [main_loop] in H. destruct (2020 <=? from_year) eqn:E; [|discriminate H].
  apply Z.leb_le in E.
  destruct (year_crawl inner_fuel (lookup from_year) insert_one from_year)
    as [[st0|st0 msg0]|] eqn:Hy; try discriminate H.
  - apply IH in H as (Hrange & Hyears & Hcrash). split; [lia|]. split; [|exact Hcrash].
    rewrite Hyears. cbn [map fst]. unfold years_between.
    replace (Z.to_nat (from_year - year)) with (S (Z.to_nat (from_year - 1 - year))) by lia.
    cbn [seq map]. rewrite <- seq_shift, map_map. cbn [rev].
    rewrite <- app_assoc. cbn [app]. f_equal.
    + f_equal. apply map_ext. intros i. lia.
    + f_equal. lia.
  - injection H as <- <- <- <-. split; [lia|]. split; [|exact Hy].
    unfold years_between. now rewrite Z.sub_diag.
Qed.

(** X8: a crawl that comes through has gone through the six years 2025,
    2024, ..., 2020, in this order, and through no other, and every record
    it stored in the loop of a year carries that year.  A crawl is ended
    before that only by an exception, in one of these years and after the
    years before it: the one of a lookup, or of the insertion of the record
    it found.  And the crawl runs for ever when, down to some year, every
    lookup returns and every record is stored, and that year has fewer
    than ten lookups without result. *)
Theorem main_visits_six_years (lookup : Z -> nat -> outcome)
    (insert_one : case_data -> step) :
  (forall fuel inner_fuel log,
     main fuel inner_fuel lookup insert_one = Some (Finished log) ->
     map fst (rev log) = [2025; 2024; 2023; 2022; 2021; 2020]
     /\ Forall (fun ys => Forall (fun d => cd_year d = Some (fst ys)) (stored (snd ys))) log)
  /\ (forall fuel inner_fuel log year st msg,
        main fuel inner_fuel lookup insert_one = Some (Aborted log year st msg) ->
        2020 <= year <= 2025
        /\ map fst (rev log) = years_between 2025 year
        /\ exists n, (1 <= n)%nat /\ looked_up st = rev (seq 1 n)
                     /\ (lookup year n = Raised msg
                         \/ exists d, lookup year n = Returned (PData d)
                                      /\ insert_one (with_year d year) = Raises msg))
  /\ (forall y, 2020 <= y <= 2025 ->
        (forall y' n, y <= y' <= 2025 -> (1 <= n)%nat ->
           trouble (lookup y') insert_one y' n = false) ->
        (forall k, (misses (fun n => returned (lookup y n)) 1 k < 10)%nat) ->
        forall fuel inner_fuel, main fuel inner_fuel lookup insert_one = None).
Proof.
  split; [|split].
  - intros fuel inner_fuel log H. apply main_loop_finished in H as [Hyears Hstamp].
    split; [rewrite map_rev, Hyears; reflexivity | apply Hstamp; constructor].
  - intros fuel inner_fuel log year st msg H.
    apply main_loop_aborted in H as (Hrange & Hyears & Hcrash).
    split; [exact Hrange|]. split.
    + rewrite map_rev, Hyears. cbn [map]. now rewrite app_nil_r, rev_involutive.
    + apply crawl_crash_inv in Hcrash as (m & Hl & Hcause).
      exists (S m). split; [lia|]. cbn [looked_up] in Hl. rewrite app_nil_r in Hl.
      split; [exact Hl | exact Hcause].
  - intros y Hy Hcalm Hfew fuel inner_fuel. unfold main.
    assert (Hgen : forall fuel from_year done,
               y <= from_year <= 2025 ->
               main_loop fuel inner_fuel lookup insert_one from_year done = None).
    { clear fuel. induction fuel as [|fuel IH]; intros from_year done Hle; [reflexivity|].
      cbn [main_loop]. replace (2020 <=? from_year) with true
        by (symmetry; apply Z.leb_le; lia).
      destruct (year_crawl inner_fuel (lookup from_year) insert_one from_year)
        as [[st|st msg]|] eqn:Hrun; [| |reflexivity].
      - destruct (Z.eq_dec from_year y) as [->|Hne]; [|apply IH; lia].
        exfalso. unfold year_crawl in Hrun. apply crawl_returns_inv in Hrun; [|lia].
        destruct Hrun as [[m Hm]|[k Hk]].
        + rewrite Hcalm in Hm by lia. discriminate Hm.
        + specialize (Hfew k). cbn in Hk. lia.
      - exfalso. unfold year_crawl in Hrun.
        apply crawl_crash_inv in Hrun as (m & _ & Hcause).
        pose proof (Hcalm from_year (1 + m)%nat ltac:(lia) ltac:(lia)) as Ht.
        unfold trouble in Ht.
        destruct Hcause as [Hr|(d & Hr & Hi)]; rewrite Hr in Ht; [discriminate Ht|].
        rewrite Hi in Ht. discriminate Ht. }
    apply Hgen. lia.
Qed.

Lemma main_visits_six_years_witness :
  (exists log, main 7 11 (fun _ => calm no_case) stores = Some (Finished log)
               /\ map fst (rev log) = [2025; 2024; 2023; 2022; 2021; 2020])
  /\ (forall fuel inner_fuel,
        main fuel inner_fuel (fun _ => calm (fun n => PData (found "1"))) stores = None).
Proof.
  split.
  - destruct (main 7 11 (fun _ => calm no_case) stores) as [[log|log y st msg]|] eqn:H;
      try (vm_compute in H; discriminate H).
    exists log. split; [reflexivity|].
    exact (proj1 (proj1 (main_visits_six_years (fun _ => calm no_case) stores)
                    7%nat 11%nat log H)).
  - apply (proj2 (proj2 (main_visits_six_years
                           (fun _ => calm (fun n => PData (found "1"))) stores))
             2025); [lia | reflexivity |].
    intros k. unfold misses. cbn [calm returned truthy negb].
    induction (seq 1 k) as [|x l IH]; cbn; lia.
Defined.

Lemma count_inside e evs :
  count_event e (map Inside evs) = 0%nat.
Proof.
  unfold count_event. induction evs as [|x evs IH]; [reflexivity|].
  cbn. destruct e; exact IH.
Qed.

Lemma count_event_app e evs evs' :
  count_event e (evs ++ evs') = (count_event e evs + count_event e evs')%nat.
Proof. unfold count_event. now rewrite List.filter_app, length_app. Qed.

(** X9: a lookup starts the browser before its [try] and quits it in
    [finally].  If the browser cannot be started, the error leaves the call
    under a new text and nothing is quit.  Once it is started, it is quit
    exactly once and as the last thing done, whether the call returns or
    raises; an error while the form is filled leaves the call, uncaught;
    otherwise the call returns what the CAPTCHA process returns. *)
Theorem lookup_session_quits (start : step) (form : list step) (w : world) :
  let out := fst (lookup_session start form w) in
  let evs := snd (lookup_session start form w) in
  (forall e, start = Raises e ->
     out = Raised (chars "Error in getting headless_driver: " ++ e)
     /\ count_event DriverStarted evs = 0%nat /\ count_event DriverQuit evs = 0%nat)
  /\ (start = Done ->
      count_event DriverStarted evs = 1%nat
      /\ count_event DriverQuit evs = 1%nat
      /\ last evs = Some DriverQuit
      /\ (forall msg, fill_form form = Raises msg -> out = Raised msg)
      /\ (fill_form form = Done -> out = Returned (fst (case_lookup w)))).
Proof.
  cbn zeta. unfold lookup_session, get_headless_driver, case_lookup. split.
  - intros e ->. repeat split.
  - intros ->. destruct (fill_form form) as [|msg'].
    + cbn [fst snd]. repeat split.
      * rewrite !count_event_app, count_inside. reflexivity.
      * rewrite !count_event_app, count_inside. reflexivity.
      * rewrite app_assoc. apply last_snoc.
      * discriminate.
    + cbn [fst snd]. repeat split.
      * now intros msg [= ->].
      * discriminate.
Qed.

Lemma lookup_session_quits_witness :
  fst (process_case_details_by_diary_number Done Done (Raises (chars "timeout")) Done
         unreadable) = Raised (chars "timeout")
  /\ last (snd (process_case_details_by_diary_number Done Done Done Done unreadable))
     = Some DriverQuit.
Proof.
  split.
  - apply (proj2 (lookup_session_quits Done [Done; Raises (chars "timeout"); Done]
                    unreadable) eq_refl). reflexivity.
  - apply (proj2 (lookup_session_quits Done [Done; Done; Done] unreadable) eq_refl).
Defined.

End CrawlMore.

(** ** [clean_header] *)

Section HeaderMore.

Import Header Words.

Ltac all_chars c :=
  destruct c as [[] [] [] [] [] [] [] []]; vm_compute; try reflexivity; try discriminate.

(** X10: a cleaned header holds only lower-case letters, digits, [|] and
    [_]; no two underscores follow each other, and it neither starts nor
    ends with an underscore. *)
Theorem clean_header_shape (s : str) :
  Forall (fun c => is_lower_az c || is_digit c || eqc c "|" || eqc c "_" = true)
         (clean_header s)
  /\ single_underscores (clean_header s) = true
  /\ no_underscore_first (clean_header s) = true
  /\ no_underscore_first (rev (clean_header s)) = true.
Proof.
  destruct (clean_header_canonical s) as (Hc & Hs & Hfix).
  split; [|split; [exact Hs|]].
  - eapply Forall_impl; [exact Hc|]. intros c. all_chars c.
  - destruct (clean_header s) as [|c y] eqn:E; [split; reflexivity|].
    assert (Ht : trimmed is_underscore (c :: y)).
    { rewrite <- Hfix. apply strip_trimmed. rewrite Hfix. discriminate. }
    destruct Ht as [H1 H2]. split.
    + cbn in *. now rewrite H1.
    + destruct (rev (c :: y)); [reflexivity|]. cbn in *. now rewrite H2.
Qed.

Lemma lower_twice c : lower_char (lower_char c) = lower_char c.
Proof. all_chars c. Qed.

Lemma lower_space c : py_isspace (lower_char c) = py_isspace c.
Proof. all_chars c. Qed.

Lemma lower_slash c : eqc (lower_char c) "/" = eqc c "/".
Proof. all_chars c. Qed.

Lemma lower_dot c : eqc (lower_char c) "." = eqc c ".".
Proof. all_chars c. Qed.

Lemma lower_is_n c : is_n (lower_char c) = is_n c.
Proof. all_chars c. Qed.

Lemma lower_is_o c : is_o (lower_char c) = is_o c.
Proof. all_chars c. Qed.

Lemma lower_word c : is_word (lower_char c) = is_word c.
Proof. all_chars c. Qed.

Lemma lower_word_at x : word_at (option_map lower_char x) = word_at x.
Proof. destruct x as [c|]; [apply lower_word | reflexivity]. Qed.

Lemma lstrip_map p (f : ascii -> ascii) s :
  (forall c, p (f c) = p c) -> lstrip_by p (map f s) = map f (lstrip_by p s).
Proof.
  intros H. induction s as [|c s IH]; [reflexivity|].
  cbn. rewrite H. now destruct (p c).
Qed.

Lemma m_slash_lower prev prev' s : m_slash prev' (py_lower s) = m_slash prev s.
Proof.
  unfold m_slash, space_run, py_lower.
  rewrite (lstrip_map py_isspace lower_char s lower_space), length_map.
  destruct (lstrip_by py_isspace s) as [|c r]; [reflexivity|].
  cbn [map]. rewrite lower_slash.
  rewrite (lstrip_map py_isspace lower_char r lower_space), !length_map.
  cbn [length]. now rewrite length_map.
Qed.

Lemma m_no_lower prev s :
  m_no (option_map lower_char prev) (py_lower s) = m_no prev s.
Proof.
  unfold m_no, py_lower, boundary.
  destruct s as [|n [|o r]]; try reflexivity.
  cbn [map]. rewrite lower_is_n, lower_is_o, lower_word_at.
  cbn [word_at]. rewrite !lower_word.
  destruct r as [|d r']; [reflexivity|].
  cbn [map]. rewrite lower_dot, !lower_word.
  replace (word_at (head (map lower_char r'))) with (word_at (head r'))
    by (destruct r'; [reflexivity | cbn; now rewrite lower_word]).
  reflexivity.
Qed.

(** A replacement that does not look at the case can be done before or
    after the text is lowered. *)
Lemma re_sub_lower (m : matcher) (repl : str) :
  (forall prev s, m (option_map lower_char prev) (py_lower s) = m prev s) ->
  py_lower repl = repl ->
  forall s prev,
    re_sub m repl (option_map lower_char prev) (py_lower s)
    = py_lower (re_sub m repl prev s).
Proof.
  intros Hm Hrepl s. induction s as [s IH] using by_length. intros prev.
  destruct s as [|c s]; [reflexivity|].
  change (py_lower (c :: s)) with (lower_char c :: py_lower s).
  rewrite !re_sub_cons.
  change (lower_char c :: py_lower s) with (py_lower (c :: s)). rewrite Hm.
  destruct (m prev (c :: s)) as [[|n]|].
  - cbn [py_lower map]. f_equal. apply (IH s (Nat.lt_succ_diag_r _) (Some c)).
  - unfold py_lower in *. rewrite map_app, Hrepl. f_equal.
    rewrite firstn_map, skipn_map.
    change (lower_char c :: map lower_char (firstn n s))
      with (map lower_char (c :: firstn n s)).
    replace (last (map lower_char (c :: firstn n s)))
      with (option_map lower_char (last (c :: firstn n s))).
    + apply IH. cbn. rewrite length_skipn. lia.
    + generalize (c :: firstn n s). intros l.
      induction l as [|x [|y l] IHl]; try reflexivity. exact IHl.
  - cbn [py_lower map]. f_equal. apply (IH s (Nat.lt_succ_diag_r _) (Some c)).
Qed.

(** X11: for a header of ASCII characters the case of the letters does
    not matter: the header and the same header in lower case are cleaned
    to the same text.  On such a header [str.lower] works letter by letter
    and keeps the length; the statement is not made for headers beyond that
    range, where a letter can become two. *)
Theorem clean_header_ignores_case (s : str) :
  forallb is_ascii s = true ->
  clean_header (py_lower s) = clean_header s.
Proof.
  intros _. unfold clean_header.
  pose proof (re_sub_lower m_slash (chars "_|_") (fun prev t => m_slash_lower prev _ t)
                eq_refl s None) as H1.
  cbn [option_map] in H1. rewrite H1.
  pose proof (re_sub_lower m_no (chars "number") m_no_lower eq_refl
                (re_sub m_slash (chars "_|_") None s) None) as H2.
  cbn [option_map] in H2. rewrite H2.
  set (s2 := re_sub m_no (chars "number") None _).
  replace (py_lower (py_lower s2)) with (py_lower s2); [reflexivity|].
  unfold py_lower. rewrite map_map. apply map_ext. intros c. now rewrite lower_twice.
Qed.

Lemma clean_header_ignores_case_witness :
  clean_header (chars "case no. / year") = clean_header (chars "Case No. / YEAR").
Proof.
  apply (clean_header_ignores_case (chars "Case No. / YEAR")). reflexivity.
Defined.

(** The fourth step keeps the characters of [[a-z0-9|_ ]] and no other. *)
Lemma other_is_filter s : forall prev, re_sub m_other [] prev s = List.filter kept s.
Proof.
  induction s as [|c s IH]; intros prev; [reflexivity|].
  rewrite re_sub_cons. cbn [m_other List.filter].
  destruct (kept c); [now rewrite IH|]. cbn. apply IH.
Qed.

Lemma filler_not_slash c : is_filler c = true -> eqc c "/" = false.
Proof. all_chars c. Qed.

Lemma filler_not_n c : is_filler c = true -> is_n c = false.
Proof. all_chars c. Qed.

Lemma filler_kept c :
  is_filler c = true -> kept (lower_char c) = true ->
  is_underscore (if eqc (lower_char c) " " then "_"%char else lower_char c) = true.
Proof. all_chars c. Qed.

Lemma filler_no_slash s : Forall (fun c => is_filler c = true) s ->
  forall prev, re_search m_slash prev s = false.
Proof.
  induction 1 as [|c s Hc Hs IH]; intros prev; [reflexivity|].
  cbn [re_search]. rewrite IH.
  assert (Hm : m_slash prev (c :: s) = None); [|now rewrite Hm].
  unfold m_slash. destruct (lstrip_app py_isspace (c :: s)) as [w Hw].
  destruct (lstrip_by py_isspace (c :: s)) as [|x r]; [reflexivity|].
  assert (Hx : is_filler x = true).
  { assert (Hall : Forall (fun c => is_filler c = true) (c :: s)) by now constructor.
    rewrite Hw in Hall. apply Forall_app in Hall as [_ Hall]. now inversion Hall. }
  now rewrite (filler_not_slash x Hx).
Qed.

Lemma filler_no_no s : Forall (fun c => is_filler c = true) s ->
  forall prev, re_search m_no prev s = false.
Proof.
  induction 1 as [|c s Hc Hs IH]; intros prev; [reflexivity|].
  cbn [re_search]. rewrite IH.
  assert (Hm : m_no prev (c :: s) = None); [|now rewrite Hm].
  unfold m_no. destruct s as [|o r]; [reflexivity|].
  now rewrite (filler_not_n c Hc).
Qed.

Lemma filler_underscores s : Forall (fun c => is_filler c = true) s ->
  Forall (fun c => is_underscore c = true)
         (spaces_to_underscores (List.filter kept (py_lower s))).
Proof.
  induction 1 as [|c s Hc Hs IH]; [constructor|].
  cbn [py_lower map List.filter]. destruct (kept (lower_char c)) eqn:E; [|exact IH].
  cbn [spaces_to_underscores map]. constructor; [|exact IH].
  now apply filler_kept.
Qed.

Lemma underscores_vanish s prev :
  Forall (fun c => is_underscore c = true) s ->
  strip_by is_underscore (re_sub m_underscores (chars "_") prev s) = [].
Proof.
  intros H. destruct s as [|c s]; [reflexivity|].
  inversion H as [|? ? Hc Hs]; subst.
  rewrite collapse_cons, Hc.
  rewrite (lstrip_all is_underscore s); [reflexivity|].
  apply forallb_forall. intros x Hx. rewrite Forall_forall in Hs.
  apply Hs. now apply list_elem_of_In.
Qed.

(** X12: a header without letter, digit, [|] and [/] is cleaned to the
    empty text: punctuation, white space and underscores leave nothing. *)
Theorem clean_header_of_filler (s : str) :
  forallb is_filler s = true -> clean_header s = [].
Proof.
  intros H.
  assert (Hf : Forall (fun c => is_filler c = true) s).
  { apply Forall_forall. intros c Hc. rewrite forallb_forall in H.
    apply H. now apply list_elem_of_In. }
  unfold clean_header.
  rewrite (re_sub_not_found m_slash _ s None (filler_no_slash s Hf None)).
  rewrite (re_sub_not_found m_no _ s None (filler_no_no s Hf None)).
  rewrite other_is_filter.
  apply underscores_vanish, filler_underscores, Hf.
Qed.

Lemma clean_header_of_filler_witness :
  clean_header (chars "# (_) -- !") = [].
Proof. apply clean_header_of_filler. reflexivity. Defined.

End HeaderMore.

(** ** [extract_table_data] and [process_table_data] *)

Section TableMore.

Import Header Table.

Lemma texts_clean (cells : list cell) c :
  c ∈ texts cells -> c <> [] /\ py_strip c = c.
Proof.
  unfold texts. intros Hc.
  apply list_elem_of_In, List.filter_In in Hc as [Hc Hn].
  apply in_map_iff in Hc as (cell0 & <- & _).
  assert (Hne : get_text_strip cell0 <> []) by (intros E; now rewrite E in Hn).
  split; [exact Hne|]. now apply trimmed_fixed, get_text_strip_trimmed.
Qed.

(** X13: [extract_table_data] never returns [None].  It raises an
    [AttributeError] exactly when the table has no [tbody], the [tbody] no
    inner table, or the inner table no [thead]; otherwise it returns a
    header and rows in which every header label and every cell is a
    non-empty text without white space at its ends, and no row is empty.
    [extract_table_details] answers with [None] exactly when its waits
    raise, the page has no table of the class, or [extract_table_data]
    raises. *)
Theorem extract_table_data_clean (table : Soup.located) :
  ((exists msg, Soup.extract_table_data table = Soup.AttributeError msg)
   <-> table = Soup.NoTbody \/ table = Soup.NoInnerTable
       \/ exists inner, table = Soup.Inner inner /\ thead inner = None)
  /\ (forall data, Soup.extract_table_data table = Soup.Extracted data ->
      exists inner header rows,
        table = Soup.Inner inner
        /\ data = {| d_header := Some header; d_rows := Some rows |}
        /\ Forall (fun h => h <> [] /\ py_strip h = h) header
        /\ Forall (fun row => row <> []
                              /\ Forall (fun c => c <> [] /\ py_strip c = c) row) rows)
  /\ (forall wait,
        Soup.extract_table_details wait (Some table) = None
        <-> wait <> Captcha.Done
            \/ exists msg, Soup.extract_table_data table = Soup.AttributeError msg)
  /\ (forall wait, Soup.extract_table_details wait None = None).
Proof.
  split; [|split; [|split]].
  - unfold Soup.extract_table_data, extract_table_data.
    destruct table as [| |inner].
    + split; [now left | now eexists].
    + split; [now right; left | now eexists].
    + destruct (thead inner) as [h|] eqn:Hh.
      * split; [intros [msg H]; discriminate H|].
        intros [H|[H|(inner' & H & Hnone)]]; try discriminate H.
        injection H as <-. congruence.
      * split; [|now eexists]. intros _. right; right. now exists inner.
  - intros data H. destruct table as [| |inner]; try discriminate H.
    exists inner. unfold Soup.extract_table_data, extract_table_data in H.
    destruct (thead inner) as [h|]; [|discriminate H].
    injection H as <-. eexists _, _. split; [reflexivity|]. split; [reflexivity|]. split.
    + destruct (nonempty (texts (head_th h)));
        apply Forall_forall; intros c Hc; eapply texts_clean, Hc.
    + destruct (tbody inner) as [trs|]; [|constructor].
      apply Forall_forall. intros row Hrow.
      apply list_elem_of_In, List.filter_In in Hrow as [Hrow Hn].
      split; [intros E; now rewrite E in Hn|].
      apply in_map_iff in Hrow as (tr & <- & _).
      apply Forall_forall. intros c Hc. eapply texts_clean, Hc.
  - intros wait. unfold Soup.extract_table_details.
    destruct wait as [|m].
    + destruct (Soup.extract_table_data table) as [msg|data].
      * split; [intros _; right; now exists msg | reflexivity].
      * split; [discriminate|]. intros [H|[msg H]]; [contradiction | discriminate H].
    + split; [intros _; left; discriminate | reflexivity].
  - intros wait. unfold Soup.extract_table_details. now destruct wait.
Qed.

Lemma extract_table_data_clean_witness :
  exists header rows,
    Soup.extract_table_data
      (Soup.Inner
         {| thead := Some {| head_th := []; head_td := [[chars " No. "]] |};
            tbody := Some [[[chars " 1"; chars " "]; []]; [[chars "  "]]] |})
    = Soup.Extracted {| d_header := Some header; d_rows := Some rows |}
    /\ Forall (fun h => h <> [] /\ py_strip h = h) header.
Proof.
  destruct (proj1 (proj2 (extract_table_data_clean
                     (Soup.Inner
                        {| thead := Some {| head_th := []; head_td := [[chars " No. "]] |};
                           tbody := Some [[[chars " 1"; chars " "]; []]; [[chars "  "]]] |})))
                  _ eq_refl) as (inner & header & rows & _ & Hd & Hh & _).
  exists header, rows. split; [now rewrite <- Hd | exact Hh].
Defined.

(** The records of a section are those of what [extract_table_details]
    hands on for a table whose inner table is found. *)
Lemma section_records_details (table : html_table) (table_class : string) :
  section_records table table_class
  = process_table_data
      (Soup.extract_table_details Captcha.Done (Some (Soup.Inner table))) table_class.
Proof.
  unfold section_records, Soup.extract_table_details, Soup.extract_table_data.
  now destruct (extract_table_data table).
Qed.

(** X14: [process_table_data] gives no record exactly when the data is
    missing, the header or the rows are missing, the header is empty, or no
    row has a cell. *)
Theorem process_table_data_nothing (data : option table_data) (table_class : string) :
  process_table_data data table_class = []
  <-> (forall header rows,
         data = Some {| d_header := Some header; d_rows := Some rows |} ->
         header = [] \/ Forall (fun row => row = []) rows).
Proof.
  unfold process_table_data.
  destruct data as [[[header|] [rows|]]|]; try (split; [discriminate | reflexivity]).
  destruct header as [|h header].
  { split; [intros _ ? ? [= <- <-]; now left | reflexivity]. }
  cbn [d_header d_rows nonempty clean_headers map negb]. split.
  - intros H header' rows' [= <- <-]. right.
    apply List.map_eq_nil in H.
    apply Forall_forall. intros row Hrow.
    destruct row as [|c row]; [reflexivity|]. exfalso.
    apply list_elem_of_In in Hrow.
    assert (Hin : In (c :: row) (List.filter nonempty rows))
      by (apply List.filter_In; now split).
    rewrite H in Hin. destruct Hin.
  - intros H. destruct (H _ _ eq_refl) as [E|Hrows]; [discriminate E|].
    replace (List.filter nonempty rows) with (@nil (list str)); [reflexivity|].
    clear H. induction Hrows as [|row rows -> _ IH]; [reflexivity | exact IH].
Qed.

Lemma process_table_data_nothing_witness :
  process_table_data
    (Some {| d_header := Some [chars "A"]; d_rows := Some [[]; []] |}) "notices" = [].
Proof.
  apply (proj2 (process_table_data_nothing _ "notices")).
  intros header rows [= <- <-]. right. repeat constructor.
Defined.

Lemma dict_from_elem (pairs : list (str * option str)) (d : record) h v :
  foldl (fun d kv => <[kv.1 := kv.2]> d) d pairs !! h = Some v ->
  (h, v) ∈ pairs \/ d !! h = Some v.
Proof.
  revert d. induction pairs as [|[k x] pairs IH]; intros d H; [now right|].
  cbn in H. apply IH in H as [H|H].
  - left. now right.
  - destruct (decide (k = h)) as [->|Hne].
    + rewrite lookup_insert_eq in H. injection H as ->. left. now left.
    + rewrite lookup_insert_ne in H by exact Hne. now right.
Qed.

Lemma row_record_value hs row h v :
  row_record hs row !! h = Some (Some v) ->
  exists c, c ∈ fit (length hs) row /\ c <> [] /\ v = py_strip c.
Proof.
  unfold row_record, dict_of. intros H.
  apply dict_from_elem in H as [H|H]; [|now rewrite lookup_empty in H].
  apply elem_of_zip_r in H. apply list_elem_of_fmap in H as (c & Hv & Hc).
  exists c. split; [exact Hc|].
  unfold cell_value in Hv. destruct c; [discriminate Hv|].
  cbn in Hv. injection Hv as ->. split; [discriminate | reflexivity].
Qed.

(** X15: a text stored in a record has no white space at its ends. *)
Theorem stored_texts_trimmed (data : option table_data) (table_class : string)
    (r : record) (h v : str) :
  r ∈ process_table_data data table_class ->
  r !! h = Some (Some v) -> py_strip v = v.
Proof.
  intros Hr Hv.
  destruct (process_table_data_inv _ _ _ Hr)
    as (header & rows & row & _ & _ & _ & _ & ->).
  apply row_record_value in Hv as (c & _ & _ & ->).
  apply (proj2 (strip_part py_isspace c)).
Qed.

Lemma stored_texts_trimmed_witness :
  py_strip (chars "x y") = chars "x y".
Proof.
  apply (stored_texts_trimmed
           (Some {| d_header := Some [chars "A"]; d_rows := Some [[chars "  x y "]] |})
           "notices" (dict_of [(chars "a", Some (chars "x y"))]) (chars "a")).
  - apply list_elem_of_here.
  - reflexivity.
Defined.

Lemma fit_elem n (row : list str) c : c ∈ fit n row -> c ∈ row \/ c = [].
Proof.
  unfold fit. intros H.
  assert (Hfirst : forall x, x ∈ firstn n row -> x ∈ row).
  { intros x Hx. rewrite <- (firstn_skipn n row). apply elem_of_app. now left. }
  destruct (length (firstn n row) <? n)%nat.
  - apply elem_of_app in H as [H|H]; [left; now apply Hfirst|].
    right. apply list_elem_of_In, repeat_spec in H. exact H.
  - left. now apply Hfirst.
Qed.

(** X16: in the records of a section of the page, read and normalised, a
    value is [None] or a non-empty text without white space at its ends;
    the empty string is never stored. *)
Theorem section_values_filled (table : html_table) (table_class : string)
    (r : record) (h v : str) :
  r ∈ section_records table table_class ->
  r !! h = Some (Some v) -> v <> [] /\ py_strip v = v.
Proof.
  unfold section_records. intros Hr Hv.
  destruct (process_table_data_inv _ _ _ Hr)
    as (header & rows & row & Hd & Hrow & _ & _ & ->).
  apply row_record_value in Hv as (c & Hc & Hne & ->).
  apply fit_elem in Hc as [Hc|Hc]; [|contradiction].
  destruct (extracted_cells_trimmed table _ rows row c Hd eq_refl Hrow Hc) as [_ Hs].
  now rewrite Hs.
Qed.

Lemma section_values_filled_witness :
  chars "x" <> [] /\ py_strip (chars "x") = chars "x".
Proof.
  apply (section_values_filled
           {| thead := Some {| head_th := [[chars "A"]; [chars "B"]]; head_td := [] |};
              tbody := Some [[[chars " x "]]] |}
           "notices" (dict_of [(chars "a", Some (chars "x")); (chars "b", None)])
           (chars "a")).
  - apply list_elem_of_here.
  - reflexivity.
Defined.

Lemma blank_cell_dropped (before after : list cell) (c : cell) :
  blank_cell c -> texts (before ++ c :: after) = texts (before ++ after).
Proof.
  intros Hc. unfold texts. rewrite !map_app, !List.filter_app. cbn [map List.filter].
  now rewrite (blank_cell_text c Hc).
Qed.

(** X17: a blank cell does not keep its column.  A row of the page with
    a cell that is empty or white space gives the same records as the row
    without that cell: the texts after it move one column to the left. *)
Theorem blank_cell_shifts_columns (head : option html_head)
    (rows1 rows2 : list (list cell)) (before after : list cell) (c : cell)
    (table_class : string) :
  blank_cell c ->
  section_records
    {| thead := head; tbody := Some (rows1 ++ (before ++ c :: after) :: rows2) |}
    table_class
  = section_records
      {| thead := head; tbody := Some (rows1 ++ (before ++ after) :: rows2) |}
      table_class.
Proof.
  intros Hc. unfold section_records, extract_table_data. cbn [thead tbody].
  rewrite !map_app. cbn [map]. now rewrite (blank_cell_dropped before after c Hc).
Qed.

Lemma blank_cell_shifts_columns_witness :
  section_records
    {| thead := Some {| head_th := [[chars "A"]; [chars "B"]]; head_td := [] |};
       tbody := Some [[[chars " "]; [chars "x"]]] |} "notices"
  = [dict_of [(chars "a", Some (chars "x")); (chars "b", None)]].
Proof.
  refine (eq_trans
            (blank_cell_shifts_columns
               (Some {| head_th := [[chars "A"]; [chars "B"]]; head_td := [] |})
               [] [] [] [[chars "x"]] [chars " "] "notices" _) _).
  - repeat constructor.
  - reflexivity.
Defined.

End TableMore.

(** ** Nested tables and the details block *)

Section SectionsMore.

Import Header Table Sections.

Lemma nested_inv : forall names tables data,
  extract_nested_table_data names tables = Some data ->
  length data = Nat.min (length names) (length tables)
  /\ map fst data = map (fun n => clean_header (py_strip n)) (firstn (length data) names)
  /\ Forall (fun t => thead t <> None) (firstn (length data) tables)
  /\ Forall2 (fun t kv => forall h, thead t = Some h ->
                d_header (snd kv) = Some (texts (head_th h)))
             (firstn (length data) tables) data.
Proof.
  induction names as [|name names IH]; intros tables data H.
  - cbn in H. injection H as <-. cbn. repeat split; constructor.
  - destruct tables as [|t tables]; [cbn in H; injection H as <-; cbn; repeat split; constructor|].
    cbn [extract_nested_table_data] in H.
    destruct (thead t) as [h|] eqn:Ht; [|discriminate H].
    destruct (extract_nested_table_data names tables) as [rest|] eqn:Hr; [|discriminate H].
    injection H as <-. destruct (IH _ _ Hr) as (Hl & Hk & Ht' & Hh).
    cbn [length firstn map fst]. repeat split.
    + now rewrite Hl.
    + now rewrite Hk.
    + constructor; [now rewrite Ht | exact Ht'].
    + constructor; [|exact Hh]. intros h' Hh'. rewrite Ht in Hh'. now injection Hh' as <-.
Qed.

Lemma nested_fails : forall names tables,
  extract_nested_table_data names tables = None
  <-> Exists (fun t => thead t = None)
             (firstn (Nat.min (length names) (length tables)) tables).
Proof.
  induction names as [|name names IH]; intros tables.
  - cbn. split; [discriminate | intros H; inversion H].
  - destruct tables as [|t tables]; [cbn; split; [discriminate | intros H; inversion H]|].
    cbn [extract_nested_table_data length Nat.min firstn].
    destruct (thead t) as [h|] eqn:Ht.
    + specialize (IH tables).
      destruct (extract_nested_table_data names tables) as [rest|].
      * split; [discriminate|]. intros H. inversion H as [? ? H1|? ? H1]; subst.
        -- rewrite Ht in H1. discriminate H1.
        -- now apply IH in H1.
      * split; [|reflexivity]. intros _. right. now apply IH.
    + split; [|reflexivity]. intros _. now left.
Qed.

(** X18: the sections of the interlocutory documents pair the labels and
    the sub-tables in order and stop at the shorter of the two, so what is
    left over of the longer is dropped.  Each key is the cleaned label.  The
    result is [None] when the section cannot be read, when there is no pair,
    or when one paired sub-table has no [thead]: one such table loses all
    sections.  A sub-table whose [thead] holds no text in [th] cells gives
    no record, whatever its [td] cells hold. *)
Theorem interlocutory_sections (names : list str) (tables : list html_table) :
  (forall out,
     interlocutory_application_documents (Some (names, tables)) = Some out ->
     out <> []
     /\ length out = Nat.min (length names) (length tables)
     /\ map fst out = map (fun n => clean_header (py_strip n)) (firstn (length out) names)
     /\ Forall2 (fun t kv => forall h, thead t = Some h ->
                   texts (head_th h) = [] -> snd kv = [])
                (firstn (length out) tables) out)
  /\ (interlocutory_application_documents (Some (names, tables)) = None
      <-> names = [] \/ tables = []
          \/ Exists (fun t => thead t = None)
                    (firstn (Nat.min (length names) (length tables)) tables)).
Proof.
  unfold interlocutory_application_documents. split.
  - intros out H.
    destruct (extract_nested_table_data names tables) as [data|] eqn:E;
      [|discriminate H].
    assert (Hne : data <> []) by (intros ->; discriminate H).
    assert (Hout : out = map (fun kv => (fst kv,
                                process_table_data (Some (snd kv))
                                  "interlocutory_application_documents")) data)
      by (destruct data; [contradiction | now injection H]).
    subst out. clear H.
    destruct (nested_inv _ _ _ E) as (Hl & Hk & _ & Hh).
    rewrite length_map. split; [now destruct data|]. split; [exact Hl|]. split.
    + rewrite map_map. exact Hk.
    + apply Forall2_fmap_r. eapply Forall2_impl; [exact Hh|].
      intros t [k v] Hv h Ht Hth. cbn [snd] in *.
      specialize (Hv h Ht). unfold process_table_data.
      destruct v as [hd rs]. cbn [d_header] in *. rewrite Hv, Hth.
      destruct rs; reflexivity.
  - destruct (extract_nested_table_data names tables) as [[|kv data]|] eqn:E.
    + apply nested_inv in E as (Hl & _). cbn in Hl. split; [intros _|reflexivity].
      destruct names; [now left|]. destruct tables; [right; now left|]. cbn in Hl. lia.
    + split; [discriminate|]. intros [->|[->|H]].
      * cbn in E. discriminate E.
      * destruct names; cbn in E; discriminate E.
      * apply nested_fails in H. rewrite H in E. discriminate E.
    + split; [|reflexivity]. intros _. right. right. now apply nested_fails.
Qed.

Lemma interlocutory_sections_witness :
  interlocutory_application_documents
    (Some ([chars " I.A. No. "; chars "Remarks"],
           [{| thead := Some {| head_th := [[chars "Date"]]; head_td := [] |};
               tbody := Some [[[chars "01-01-2021"]]] |}]))
  = Some [(chars "ia_number", [dict_of [(chars "date", Some (chars "01-01-2021"))]])]
  /\ Nat.min 2 1 = 1%nat.
Proof.
  split; [reflexivity|].
  destruct (proj1 (interlocutory_sections
                     [chars " I.A. No. "; chars "Remarks"]
                     [{| thead := Some {| head_th := [[chars "Date"]]; head_td := [] |};
                         tbody := Some [[[chars "01-01-2021"]]] |}]) _ eq_refl)
    as (_ & Hl & _).
  symmetry. exact Hl.
Defined.

Lemma details_from (rows : list (list str)) : forall (d : gmap str str) k v,
  foldl add_detail d rows !! k = Some v ->
  (exists key value rest, (key :: value :: rest) ∈ rows
                          /\ k = rstrip_colons (py_strip key) /\ v = py_strip value)
  \/ d !! k = Some v.
Proof.
  induction rows as [|row rows IH]; intros d k v H; [now right|].
  cbn [foldl] in H. apply IH in H as [(key & value & rest & Hin & Hk & Hv)|H].
  - left. exists key, value, rest. split; [now right | now split].
  - destruct row as [|key [|value rest]]; cbn [add_detail] in H; try (now right).
    destruct (decide (rstrip_colons (py_strip key) = k)) as [<-|Hne].
    + rewrite lookup_insert_eq in H. injection H as <-.
      left. exists key, value, rest. split; [now left | now split].
    + rewrite lookup_insert_ne in H by exact Hne. now right.
Qed.

Lemma details_empty (rows : list (list str)) : forall (d : gmap str str),
  foldl add_detail d rows = ∅ <-> d = ∅ /\ Forall short_row rows.
Proof.
  induction rows as [|row rows IH]; intros d; cbn [foldl].
  - split; [intros ->; split; [reflexivity | constructor] | now intros [-> _]].
  - rewrite IH. destruct row as [|key [|value rest]]; cbn [add_detail].
    + split; intros [Hd Hr]; (split; [exact Hd|]).
      * constructor; [unfold short_row; cbn; lia | exact Hr].
      * now inversion Hr.
    + split; intros [Hd Hr]; (split; [exact Hd|]).
      * constructor; [unfold short_row; cbn; lia | exact Hr].
      * now inversion Hr.
    + split.
      * intros [Hd _]. now apply insert_non_empty in Hd.
      * intros [_ Hr]. inversion Hr as [|? ? Hs _]. unfold short_row in Hs. cbn in Hs. lia.
Qed.

Lemma rstrip_last p s c : last (rstrip_by p s) = Some c -> p c = false.
Proof.
  unfold rstrip_by. pose proof (lstrip_first p (rev s)) as H.
  destruct (lstrip_by p (rev s)) as [|x l]; [discriminate|].
  cbn [rev]. rewrite last_snoc. now intros [= <-].
Qed.

(** X19: [extract_case_details] gives [None] when the page has no details
    table or when no row of it has two cells, and never an empty
    dictionary.  Every entry comes from a row with at least two cells: the
    key is the stripped first cell without the colons at its end, so no key
    ends with a colon, and the value is the stripped second cell. *)
Theorem case_details_entries (table : option (list (list str))) :
  (extract_case_details table = None
   <-> table = None \/ exists rows, table = Some rows /\ Forall short_row rows)
  /\ (forall details, extract_case_details table = Some details ->
      details <> ∅
      /\ forall k v, details !! k = Some v ->
           last k <> Some ":"%char
           /\ exists rows key value rest,
                table = Some rows /\ (key :: value :: rest) ∈ rows
                /\ k = rstrip_colons (py_strip key) /\ v = py_strip value).
Proof.
  unfold extract_case_details. destruct table as [rows|].
  2:{ split; [split; [now left | reflexivity] | discriminate]. }
  destruct (decide (foldl add_detail ∅ rows = ∅)) as [E|E].
  - split; [|discriminate]. split; [|reflexivity].
    intros _. right. exists rows. split; [reflexivity|]. now apply details_empty in E.
  - split.
    + split; [discriminate|]. intros [H|(rows' & [= <-] & H)]; [discriminate H|].
      exfalso. apply E. now apply details_empty.
    + intros details [= <-]. split; [exact E|]. intros k v Hkv.
      apply details_from in Hkv as [(key & value & rest & Hin & -> & ->)|H];
        [|now rewrite lookup_empty in H].
      split.
      * intros Hl. apply rstrip_last in Hl. discriminate Hl.
      * exists rows, key, value, rest. auto.
Qed.

Lemma case_details_entries_witness :
  extract_case_details (Some [[chars " Category : "; chars " Civil "]; [chars "x"]])
  = Some {[ chars "Category " := chars "Civil" ]}
  /\ extract_case_details (Some [[chars "x"]; []]) = None.
Proof.
  split; [reflexivity|].
  apply (proj2 (proj1 (case_details_entries (Some [[chars "x"]; []])))).
  right. exists [[chars "x"]; []]. split; [reflexivity|].
  repeat constructor.
Defined.

End SectionsMore.

(** ** Splitting and replacing *)

Section SplitMore.

Lemma split_from_cons sep cur c s :
  split_from sep cur (c :: s) =
  if startswith sep (c :: s) then
    match length sep with
    | S n => rev cur :: split_from sep [] (skipn n s)
    | O => [rev (c :: cur) ++ s]
    end
  else split_from sep (c :: cur) s.
Proof.
  rewrite split_from_equation_2.
  destruct (startswith sep (c :: s)); simp split_from;
    destruct (length sep); simp split_from; reflexivity.
Qed.

Lemma py_replace_cons old new c s :
  py_replace old new (c :: s) =
  if startswith old (c :: s) then
    match length old with
    | S n => new ++ py_replace old new (skipn n s)
    | O => c :: s
    end
  else c :: py_replace old new s.
Proof.
  rewrite py_replace_equation_2.
  destruct (startswith old (c :: s)); simp py_replace;
    destruct (length old); simp py_replace; reflexivity.
Qed.

(** What is already read of the current piece only goes in front of the
    first piece. *)
Lemma split_from_cur sep s : forall cur,
  exists hd tl, split_from sep [] s = hd :: tl
                /\ split_from sep cur s = (rev cur ++ hd) :: tl.
Proof.
  induction s as [|c s IH]; intros cur.
  - exists [], []. simp split_from. cbn. now rewrite app_nil_r.
  - rewrite !split_from_cons. destruct (startswith sep (c :: s)).
    + destruct (length sep).
      * eexists _, []. split; [reflexivity|]. cbn. now rewrite <- app_assoc.
      * eexists [], _. split; [reflexivity|]. cbn. now rewrite app_nil_r.
    + destruct (IH [c]) as (hd & tl & H0 & H1). rewrite H1.
      destruct (IH (c :: cur)) as (hd' & tl' & H0' & H1'). rewrite H1'.
      rewrite H0 in H0'. injection H0' as <- <-.
      eexists _, _. split; [reflexivity|]. cbn. now rewrite <- app_assoc.
Qed.

(** A text that does not hold the first character of the separator is not
    split, and goes to the front of the first piece of what follows. *)
Lemma split_from_prefix o sep (u t : str) : forall cur,
  contains_char o u = false ->
  split_from (o :: sep) cur (u ++ t) = split_from (o :: sep) (rev u ++ cur) t.
Proof.
  induction u as [|c u IH]; intros cur Hu; [reflexivity|].
  cbn in Hu. apply orb_false_iff in Hu as [Hc Hu].
  cbn [app]. rewrite split_from_cons. cbn [startswith]. rewrite Hc. cbn [andb].
  rewrite IH by exact Hu. cbn [rev]. now rewrite <- app_assoc.
Qed.

Lemma py_replace_prefix o old new (u t : str) :
  contains_char o u = false ->
  py_replace (o :: old) new (u ++ t) = u ++ py_replace (o :: old) new t.
Proof.
  induction u as [|c u IH]; intros Hu; [reflexivity|].
  cbn in Hu. apply orb_false_iff in Hu as [Hc Hu].
  cbn [app]. rewrite py_replace_cons. cbn [startswith]. rewrite Hc. cbn [andb].
  now rewrite IH.
Qed.

(** A text that is split into one piece is that piece. *)
Lemma split_from_single sep s : forall cur x,
  sep <> [] -> split_from sep cur s = [x] -> x = rev cur ++ s.
Proof.
  induction s as [|c s IH]; intros cur x Hsep H.
  - simp split_from in H. injection H as <-. now rewrite app_nil_r.
  - rewrite split_from_cons in H. destruct (startswith sep (c :: s)).
    + destruct sep as [|o sep]; [contradiction|]. cbn [length] in H.
      destruct (split_from_cur (o :: sep) (skipn (length sep) s) []) as (hd & tl & H0 & _).
      rewrite H0 in H. discriminate H.
    + apply IH in H; [|exact Hsep]. rewrite H. cbn. now rewrite <- app_assoc.
Qed.

(** The last piece holds no separator, and the text ends with it. *)
Lemma last_piece_char c s : forall cur,
  exists front, rev cur ++ s = front ++ last_piece (split_from [c] cur s)
                /\ (contains_char c (rev cur) = false ->
                    contains_char c (last_piece (split_from [c] cur s)) = false)
                /\ (front = [] \/ last front = Some c).
Proof.
  induction s as [|x s IH]; intros cur.
  - exists []. simp split_from. cbn. rewrite app_nil_r. auto.
  - rewrite split_from_cons. cbn [startswith]. destruct (eqc c x) eqn:E; cbn [andb length skipn].
    + apply eqc_true in E. subst x.
      destruct (IH []) as (front & Hf & Hc & Hl). cbn [rev app] in Hf.
      exists (rev cur ++ c :: front). unfold last_piece in *.
      assert (Hlast : List.last (rev cur :: split_from [c] [] s) []
                      = List.last (split_from [c] [] s) []).
      { destruct (split_from_cur [c] s []) as (hd & tl & H0 & _). now rewrite H0. }
      rewrite drop_0, Hlast. split; [rewrite Hf at 1; now rewrite <- app_assoc|].
      split; [intros _; now apply Hc|]. right.
      destruct Hl as [->|Hl]; [apply last_snoc|].
      change (c :: front) with ([c] ++ front). rewrite app_assoc.
      destruct front as [|y front]; [discriminate Hl|].
      rewrite last_app. now rewrite Hl.
    + destruct (IH (x :: cur)) as (front & Hf & Hc & Hl).
      exists front. cbn [rev] in Hf, Hc. rewrite <- app_assoc in Hf. cbn [app] in Hf.
      split; [exact Hf|]. split; [|exact Hl].
      intros Hcur. apply Hc. rewrite contains_app, Hcur. cbn. now rewrite E.
Qed.

End SplitMore.

(** ** The order key and the names of the downloads *)

Section PdfMore.

Import Captcha Pdf Download.

Ltac to_Z :=
  repeat rewrite ?orb_true_iff, ?andb_true_iff, ?orb_false_iff, ?andb_false_iff,
    ?Z.ltb_lt, ?Z.ltb_ge, ?Z.eqb_eq, ?Z.eqb_neq, ?Z.leb_le, ?Z.leb_gt in *.

Lemma match_hyphen_inv s r : match_hyphen s = Some r -> length s = S (length r).
Proof.
  unfold match_hyphen. destruct s as [|c s]; [discriminate|].
  destruct (eqc c "-"); [|discriminate]. now intros [= <-].
Qed.

Lemma match_month_inv s m r :
  match_month s = Some (m, r) -> length s = (3 + length r)%nat /\ 1 <= m <= 12.
Proof.
  unfold match_month. destruct s as [|a [|b [|c s]]]; try discriminate.
  destruct (List.find _ month_names) as [nm|] eqn:E; [|discriminate].
  intros [= <- <-]. split; [reflexivity|]. apply find_some in E as [Hin _].
  cbn in Hin. intuition (subst; cbn; lia).
Qed.

Lemma match_year_inv s y r :
  match_year s = Some (y, r) -> length s = (4 + length r)%nat /\ 0 <= y <= 9999.
Proof.
  unfold match_year. destruct s as [|a [|b [|c [|d s]]]]; try discriminate.
  destruct (digit a) as [x1|] eqn:Ea; [|discriminate].
  destruct (digit b) as [x2|] eqn:Eb; [|discriminate].
  destruct (digit c) as [x3|] eqn:Ec; [|discriminate].
  destruct (digit d) as [x4|] eqn:Ed; [|discriminate].
  apply digit_range in Ea, Eb, Ec, Ed.
  intros [= <- <-]. split; [reflexivity | lia].
Qed.

Lemma day_alternatives_length s alt :
  In alt (day_alternatives s) ->
  length s = (1 + length (snd alt))%nat \/ length s = (2 + length (snd alt))%nat.
Proof.
  unfold day_alternatives. rewrite !in_app_iff.
  destruct s as [|a [|b r]]; cbn.
  - tauto.
  - destruct (digit a) as [x|]; cbn; [|tauto].
    destruct (1 <=? x); cbn; [|tauto].
    intros [[]|[[]|[[]|[[<-|[]]|[]]]]]. now left.
  - destruct (digit a) as [x|]; destruct (digit b) as [y|]; cbn.
    all: repeat match goal with
                | |- context [if ?c then _ else _] => destruct c
                end; cbn.
    all: intuition (subst; cbn; auto).
Qed.

Lemma match_after_day_full day s y m d r :
  match_after_day day s = Some (y, m, d, r) ->
  d = day /\ 1 <= m <= 12 /\ 0 <= y <= 9999 /\ length s = (9 + length r)%nat.
Proof.
  unfold match_after_day.
  destruct (match_hyphen s) as [r1|] eqn:E1; cbn; [|discriminate].
  destruct (match_month r1) as [[m' r2]|] eqn:E2; cbn; [|discriminate].
  destruct (match_hyphen r2) as [r3|] eqn:E3; cbn; [|discriminate].
  destruct (match_year r3) as [[y' r4]|] eqn:E4; cbn; [|discriminate].
  intros [= <- <- <- <-].
  apply match_hyphen_inv in E1, E3.
  apply match_month_inv in E2 as [E2 Hm]. apply match_year_inv in E4 as [E4 Hy].
  repeat split; try lia.
Qed.

(** What [strptime] accepts is a date of the calendar, written in ten or
    eleven characters. *)
Lemma strptime_inv s d :
  strptime_d_b_Y s = Some d ->
  (10 <= length s <= 11)%nat
  /\ 1 <= dt_year d <= 9999 /\ 1 <= dt_month d <= 12
  /\ 1 <= dt_day d <= days_in_month (dt_year d) (dt_month d).
Proof.
  intros H. pose proof (strptime_after_min s d H) as (_ & _ & Hday).
  revert H. unfold strptime_d_b_Y.
  destruct (first_match _ _) as [[[[y m] dd] [|c rest]]|] eqn:E; try discriminate.
  destruct ((1 <=? y) && (dd <=? days_in_month y m)) eqn:Ev; [|discriminate].
  intros [= <-]. cbn [dt_year dt_month dt_day] in *.
  apply first_match_Some in E as (alt & Hin & Halt).
  apply match_after_day_full in Halt as (-> & Hm & Hy & Hlen).
  apply day_alternatives_length in Hin. to_Z. cbn [length] in Hlen. lia.
Qed.

(** X20: the order key of a file is always a date of the calendar: the
    year from 1 to 9999, the month from 1 to 12 and a day that the month
    has.  A date is parsed only when the text behind the marker, without
    [.pdf], has ten or eleven characters; anything more, such as a counter
    appended to the date, leaves the file undated. *)
Theorem order_key_is_a_date (filename : str) :
  let d := extract_date_from_filename filename in
  (1 <= dt_year d <= 9999 /\ 1 <= dt_month d <= 12
   /\ 1 <= dt_day d <= days_in_month (dt_year d) (dt_month d))
  /\ (date_of filename <> None -> (10 <= length (date_part filename) <= 11)%nat)
  /\ ((length (date_part filename) < 10 \/ 11 < length (date_part filename))%nat ->
      d = datetime_min).
Proof.
  cbn zeta. unfold extract_date_from_filename, date_of.
  destruct (strptime_d_b_Y (date_part filename)) as [d|] eqn:E.
  - apply strptime_inv in E as (Hl & Hb). split; [exact Hb|]. split; [auto | lia].
  - split; [cbn; lia|]. split; [intros H; now destruct H | reflexivity].
Qed.

Lemma order_key_is_a_date_witness :
  extract_date_from_filename (chars "abOrder_05-Jan-2021(1).pdf") = datetime_min.
Proof.
  apply (proj2 (proj2 (order_key_is_a_date (chars "abOrder_05-Jan-2021(1).pdf")))).
  right. vm_compute. lia.
Defined.

Lemma not_hex c :
  is_hex c = true -> eqc "/" c = false /\ eqc "O" c = false /\ eqc "." c = false.
Proof. destruct c as [[] [] [] [] [] [] [] []]; vm_compute; intuition discriminate. Qed.

Lemma hex_free (u : str) : forallb is_hex u = true ->
  contains_char "/" u = false /\ contains_char "O" u = false
  /\ contains_char "." u = false.
Proof.
  induction u as [|c u IH]; [now repeat split|].
  cbn. intros H. apply andb_true_iff in H as [Hc Hu].
  destruct (not_hex c Hc) as (-> & -> & ->). cbn. now apply IH.
Qed.

Lemma last_of_later (p : str) (l : list str) :
  l <> [] -> List.last (p :: l) [] = List.last l [].
Proof. destruct l; [contradiction | reflexivity]. Qed.

Lemma split_from_some sep cur s : split_from sep cur s <> [].
Proof.
  destruct (split_from_cur sep s cur) as (hd & tl & _ & H). now rewrite H.
Qed.

(** Behind the last separator comes the last piece. *)
Lemma last_piece_behind c (b : str) : contains_char c b = false ->
  forall a cur, last_piece (split_from [c] cur (a ++ c :: b)) = b.
Proof.
  intros Hb. induction a as [|x a IH]; intros cur; cbn [app];
    rewrite split_from_cons; cbn [startswith length].
  - rewrite (proj2 (eqc_true c c) eq_refl). cbn [andb]. rewrite drop_0.
    rewrite split_from_absent by exact Hb. reflexivity.
  - destruct (eqc c x); cbn [andb].
    + rewrite drop_0. unfold last_piece.
      rewrite last_of_later by apply split_from_some. apply IH.
    + apply IH.
Qed.

(** [os.path.basename(os.path.join(folder, name))] is [name], for a name
    without slash. *)
Lemma basename_join folder name :
  contains_char "/" name = false -> basename (path_join folder name) = name.
Proof.
  intros Hn. unfold basename, path_join, py_split.
  change (chars "/") with ["/"%char].
  assert (Hs : startswith ["/"%char] name = false).
  { destruct name as [|c name]; [reflexivity|]. cbn in *.
    apply orb_false_iff in Hn as [Hc _]. now rewrite Hc. }
  rewrite Hs.
  destruct (Table.nonempty folder && negb (endswith_char "/" folder)) eqn:E.
  - apply (last_piece_behind "/" name Hn folder []).
  - destruct folder as [|c folder].
    + cbn [app]. now rewrite split_from_absent.
    + cbn [Table.nonempty andb] in E. apply negb_false_iff in E.
      unfold endswith_char in E.
      destruct (last (c :: folder)) as [x|] eqn:Hl; [|discriminate E].
      apply eqc_true in E. subst x. apply last_Some in Hl as [front Hf].
      rewrite Hf, <- app_assoc. apply (last_piece_behind "/" name Hn front []).
Qed.

Lemma last_piece_free (c : ascii) (s : str) :
  contains_char c (last_piece (py_split [c] s)) = false.
Proof.
  destruct (last_piece_char c s []) as (front & _ & H & _). now apply H.
Qed.

(** X21: the file of a download is named by the 32 digits of a fresh
    identifier followed by the last part of the address, whatever the
    folder.  Its order key is then the one of that last part when the part
    holds the marker [Order_], and [datetime.min] when it does not: without
    the marker the identifier stands in front of the text that is parsed. *)
Theorem downloaded_file_key (url uuid folder path : str) (fetch : step) :
  download_pdf (Some url) uuid folder fetch = Some path ->
  forallb is_hex uuid = true -> length uuid = 32%nat ->
  let name := last_piece (py_split (chars "/") url) in
  basename path = uuid ++ name
  /\ (length (py_split (chars "Order_") name) = 1%nat ->
      extract_date_from_filename path = datetime_min)
  /\ ((1 < length (py_split (chars "Order_") name))%nat ->
      extract_date_from_filename path = extract_date_from_filename name).
Proof.
  intros H Hhex Hlen name. unfold download_pdf in H.
  destruct url as [|u0 url]; [discriminate H|]. fold name in H.
  destruct fetch; [|discriminate H]. injection H as <-.
  destruct (hex_free uuid Hhex) as (Hslash & HO & Hdot).
  assert (Hname : contains_char "/" name = false) by apply last_piece_free.
  assert (Hbase : basename (path_join folder (uuid ++ name)) = uuid ++ name).
  { apply basename_join. rewrite contains_app, Hslash, Hname. reflexivity. }
  split; [exact Hbase|].
  assert (Hbase' : basename name = name).
  { unfold basename, py_split. change (chars "/") with ["/"%char].
    now rewrite split_from_absent. }
  unfold extract_date_from_filename, date_part. rewrite Hbase, Hbase'.
  unfold py_split.
  change (chars "Order_") with ("O"%char :: chars "rder_").
  rewrite (split_from_prefix "O" (chars "rder_") uuid name [] HO).
  rewrite app_nil_r.
  destruct (split_from_cur ("O"%char :: chars "rder_") name (rev uuid))
    as (hd & tl & H0 & H1).
  rewrite H0, H1, rev_involutive. split.
  - intros Hone. destruct tl; [|discriminate Hone].
    apply split_from_single in H0; [|discriminate]. cbn [rev app] in H0. subst hd.
    unfold last_piece. cbn [List.last].
    change (chars ".pdf") with ("."%char :: chars "pdf").
    rewrite (py_replace_prefix "." (chars "pdf") [] uuid name Hdot).
    destruct (strptime_d_b_Y _) as [d|] eqn:E; [|reflexivity].
    apply strptime_inv in E as [E _]. rewrite length_app in E. lia.
  - intros Hmore. unfold last_piece.
    rewrite !last_of_later by (destruct tl; [cbn in Hmore; lia | discriminate]).
    reflexivity.
Qed.

Lemma downloaded_file_key_witness :
  extract_date_from_filename
    (chars "case_pdfs/7_2021/0123456789abcdef0123456789abcdefROP_Order_05-Jan-2021.pdf")
  = {| dt_year := 2021; dt_month := 1; dt_day := 5 |}
  /\ extract_date_from_filename
       (chars "case_pdfs/7_2021/0123456789abcdef0123456789abcdef05-Jan-2021.pdf")
     = datetime_min.
Proof.
  split.
  - refine (eq_trans
              (proj2 (proj2 (downloaded_file_key
                               (chars "https://host/files/ROP_Order_05-Jan-2021.pdf")
                               (chars "0123456789abcdef0123456789abcdef")
                               (chars "case_pdfs/7_2021") _ Done eq_refl eq_refl eq_refl))
                     _) _).
    + vm_compute. lia.
    + reflexivity.
  - refine (proj1 (proj2 (downloaded_file_key
                            (chars "https://host/files/05-Jan-2021.pdf")
                            (chars "0123456789abcdef0123456789abcdef")
                            (chars "case_pdfs/7_2021") _ Done eq_refl eq_refl eq_refl))
                  _).
    reflexivity.
Defined.

(** X22: the name under which a file is uploaded is what follows the last
    slash of its path: it holds no slash and the path ends with it; for a
    file joined to a folder it is the name of the file, so two files of the
    same name in different folders are uploaded under one name. *)
Theorem blob_name_is_file_name (file_path : str) :
  contains_char "/" (blob_name file_path) = false
  /\ (exists front, file_path = front ++ blob_name file_path
                    /\ (front = [] \/ last front = Some "/"%char))
  /\ (forall folder name, file_path = path_join folder name ->
        contains_char "/" name = false -> blob_name file_path = name).
Proof.
  unfold blob_name. split; [apply last_piece_free|]. split.
  - destruct (last_piece_char "/" file_path []) as (front & Heq & _ & Hl).
    exists front. split; [exact Heq | exact Hl].
  - intros folder name -> Hn. now apply basename_join.
Qed.

Lemma blob_name_is_file_name_witness :
  blob_name (chars "case_pdfs/7_2021/7_2021_merged_pdf.pdf")
  = chars "7_2021_merged_pdf.pdf".
Proof.
  apply (proj2 (proj2 (blob_name_is_file_name _)) (chars "case_pdfs/7_2021"));
    reflexivity.
Defined.

End PdfMore.

(** ** Stability of the order *)

Section OrderMore.

Import Pdf Download.

(** X23: sorting is stable: the files whose keys are one and the same date
    stand in the sorted list in the order in which they were downloaded.
    This holds for the files whose key is [datetime.min] too, so the files
    without a date keep their order. *)
Theorem sort_pdf_files_stable (pdf_files : list str) (d : datetime) :
  List.filter (fun f => same_date (extract_date_from_filename f) d)
              (sort_pdf_files pdf_files)
  = List.filter (fun f => same_date (extract_date_from_filename f) d) pdf_files.
Proof.
  apply sort_by_filter. intros x y Hx Hy. unfold same_date in *.
  apply andb_true_iff in Hx as [Hx _]. apply andb_true_iff in Hy as [_ Hy].
  eapply dt_leb_trans; eassumption.
Qed.

(** X24: sorting changes a list of files exactly when their keys do not go
    up along it: a list is left as it is if and only if it is in order. *)
Theorem sort_pdf_files_fixed (pdf_files : list str) :
  sort_pdf_files pdf_files = pdf_files
  <-> StronglySorted
        (fun f g => dt_leb (extract_date_from_filename f) (extract_date_from_filename g) = true)
        pdf_files.
Proof.
  split.
  - intros <-. apply sort_by_sorted; [apply dt_leb_total | apply dt_leb_trans].
  - apply sort_by_fixed.
Qed.

Lemma sort_pdf_files_fixed_witness :
  sort_pdf_files [chars "a_Order_05-Jan-2021.pdf"; chars "b_Order_07-Mar-2022.pdf"]
  = [chars "a_Order_05-Jan-2021.pdf"; chars "b_Order_07-Mar-2022.pdf"].
Proof.
  apply (proj2 (sort_pdf_files_fixed _)).
  repeat constructor.
Defined.

End OrderMore.

(** ** The orders of a case *)

Section OrdersMore.

Import Captcha Pdf Download Orders.

Lemma sorted_keys {A K : Type} (key : A -> K) (leb : K -> K -> bool) (l : list A) :
  StronglySorted (fun x y => leb (key x) (key y) = true) l ->
  StronglySorted (fun a b => leb a b = true) (map key l).
Proof.
  induction 1 as [|x l Hl IH Hx]; cbn [map]; constructor; [exact IH|].
  apply List.Forall_map. exact Hx.
Qed.

Lemma entries_paths (l : list str) :
  map snd (map (fun pdf => (extract_date_from_filename pdf, pdf)) l) = l.
Proof. induction l as [|x l IH]; cbn [map snd]; [reflexivity | now rewrite IH]. Qed.

Lemma entries_dates (l : list str) :
  map fst (map (fun pdf => (extract_date_from_filename pdf, pdf)) l)
  = map extract_date_from_filename l.
Proof. induction l as [|x l IH]; cbn [map fst]; [reflexivity | now rewrite IH]. Qed.

(** X25: when [judgement_orders] returns a table, the page has an orders
    table with rows; the paths of the entries are the downloaded files,
    rearranged; the date of an entry is the order key of its path and the
    dates go up along the table; the folder is [case_pdfs] with the diary
    number in which [/] became [_]; and the merged file is named exactly
    when the table is not empty. *)
Theorem judgement_orders_table (diary_number : str) (wait makedirs merge : step)
    (table : option (option (list link)))
    (items : list (datetime * str)) (merged folder : option str) :
  judgement_orders diary_number wait table makedirs merge = Three (Some items) merged folder ->
  exists links,
    table = Some (Some links)
    /\ Permutation (map snd items) (downloads (folder_path_of diary_number) links)
    /\ map fst items = map extract_date_from_filename (map snd items)
    /\ StronglySorted (fun a b => dt_leb a b = true) (map fst items)
    /\ folder = Some (folder_path_of diary_number)
    /\ merged = match items with
                | [] => None
                | _ => Some (merged_pdf_path_of diary_number)
                end.
Proof.
  unfold judgement_orders. intros H.
  destruct wait; [|discriminate H].
  destruct table as [[links|]|]; try (destruct makedirs; discriminate H).
  destruct makedirs; [|discriminate H].
  exists links. split; [reflexivity|].
  destruct (downloads (folder_path_of diary_number) links) as [|p ps] eqn:E.
  - injection H as <- <- <-. cbn. repeat split; constructor.
  - destruct merge; [|discriminate H]. injection H as <- <- <-.
    rewrite entries_paths, entries_dates.
    pose proof (sort_by_perm extract_date_from_filename dt_leb (p :: ps)) as Hperm.
    fold (sort_pdf_files (p :: ps)) in Hperm.
    split; [exact Hperm|]. split; [reflexivity|]. split.
    + apply sorted_keys.
      exact (sort_by_sorted extract_date_from_filename dt_leb dt_leb_total dt_leb_trans
               (p :: ps)).
    + split; [reflexivity|].
      change (insert_by extract_date_from_filename dt_leb p (sort_pdf_files ps))
        with (sort_pdf_files (p :: ps)).
      destruct (sort_pdf_files (p :: ps)) eqn:Es; [|reflexivity].
      apply Permutation_nil in Hperm. discriminate Hperm.
Qed.

Lemma judgement_orders_table_witness :
  exists links,
    Some (Some [fetched "https://host/b_Order_07-Mar-2022.pdf" "0123456789abcdef0123456789abcdef";
                fetched "https://host/a_Order_05-Jan-2021.pdf" "fedcba9876543210fedcba9876543210"])
    = Some (Some links)
    /\ Permutation
         [chars "case_pdfs/7_2021/fedcba9876543210fedcba9876543210a_Order_05-Jan-2021.pdf";
          chars "case_pdfs/7_2021/0123456789abcdef0123456789abcdefb_Order_07-Mar-2022.pdf"]
         (downloads (folder_path_of (chars "7/2021")) links).
Proof.
  destruct (judgement_orders_table (chars "7/2021") Done Done Done
              (Some (Some [fetched "https://host/b_Order_07-Mar-2022.pdf"
                                   "0123456789abcdef0123456789abcdef";
                           fetched "https://host/a_Order_05-Jan-2021.pdf"
                                   "fedcba9876543210fedcba9876543210"]))
              _ _ _ eq_refl) as (links & H1 & H2 & _).
  exists links. split; [exact H1 | exact H2].
Defined.

(** X26: the end of [process_table] raises exactly when the wait for the
    orders raises, the page has no orders table or the table no body, the
    folder cannot be made, the merging of downloaded files raises, or the
    folder cannot be removed: [judgement_orders] answers its own failures
    with values that the unpacking or the loop of [process_table] then
    rejects.  When it does not raise, there is one entry for each
    downloaded file. *)
Theorem process_table_orders_raises (diary_number : str) (wait makedirs merge rmtree : step)
    (table : option (option (list link))) (azure : str -> str -> option str) :
  let r := process_table_orders
             (judgement_orders diary_number wait table makedirs merge) azure rmtree in
  (raises r <->
     wait <> Done \/ makedirs <> Done \/ rmtree <> Done
     \/ (forall links, table <> Some (Some links))
     \/ (exists links, table = Some (Some links)
                       /\ downloads (folder_path_of diary_number) links <> []
                       /\ merge <> Done))
  /\ (forall uploaded url, r = inr (uploaded, url) ->
        exists links, table = Some (Some links)
                      /\ length uploaded
                         = length (downloads (folder_path_of diary_number) links)).
Proof.
  cbv zeta. unfold raises, judgement_orders.
  destruct wait as [|wm].
  2:{ split; [|intros ? ? H; discriminate H].
      split; [intros _; left; discriminate | intros _; eexists; reflexivity]. }
  destruct table as [[links|]|].
  3:{ split; [|intros ? ? H; discriminate H].
      split; [|intros _; eexists; reflexivity].
      intros _. do 3 right. left. intros links H. discriminate H. }
  2:{ split.
      - split; [|intros _; destruct makedirs; eexists; reflexivity].
        intros _. do 3 right. left. intros links H. discriminate H.
      - intros ? ? H. destruct makedirs; discriminate H. }
  destruct makedirs as [|mm].
  2:{ split; [|intros ? ? H; discriminate H].
      split; [intros _; right; left; discriminate | intros _; eexists; reflexivity]. }
  destruct (downloads (folder_path_of diary_number) links) as [|p ps] eqn:E.
  - cbn. destruct rmtree as [|rm]; split.
    + split; [intros [e He]; discriminate He|].
      intros [H|[H|[H|[H|(links' & Hl & Hd & _)]]]]; try congruence.
      exfalso. exact (H links eq_refl).
    + intros uploaded url H. injection H as <- <-. exists links.
      split; [reflexivity|]. now rewrite E.
    + split; [intros _; right; right; left; discriminate | intros _; eexists; reflexivity].
    + intros ? ? H. discriminate H.
  - destruct merge as [|gm].
    2:{ split; [|intros ? ? H; discriminate H].
        split; [|intros _; eexists; reflexivity].
        intros _. do 4 right. exists links. rewrite E.
        repeat split; discriminate. }
    cbn [process_table_orders upload_pdf_to_azure remove_dir].
    destruct rmtree as [|rm]; split.
    + split; [intros [e He]; discriminate He|].
      intros [H|[H|[H|[H|(links' & Hl & _ & Hm)]]]]; try congruence.
      exfalso. exact (H links eq_refl).
    + intros uploaded url H. injection H as <- <-. exists links.
      split; [reflexivity|]. rewrite E, !length_map.
      apply Permutation_length.
      apply (sort_by_perm extract_date_from_filename dt_leb (p :: ps)).
    + split; [intros _; right; right; left; discriminate | intros _; eexists; reflexivity].
    + intros ? ? H. discriminate H.
Qed.

End OrdersMore.

(** ** Reading the image *)

Section OcrMore.

Import Captcha Ocr.

Lemma poll_returns (results : nat -> option status) :
  forall k n, settled (results (n + k)%nat) = true ->
  exists r, poll (S k) results n = Some r.
Proof.
  induction k as [|k IH]; intros n H; cbn [poll].
  - rewrite Nat.add_0_r in H. destruct (results n) as [s|]; [|now eexists].
    cbn in H. apply negb_true_iff in H. rewrite H. now eexists.
  - destruct (results n) as [s|]; [|now eexists].
    destruct (pending s); [|now eexists].
    apply IH. now rewrite Nat.add_succ_l, <- Nat.add_succ_r.
Qed.

Lemma poll_settled (results : nat -> option status) :
  forall fuel n r, poll fuel results n = Some r ->
  exists m, results m = r /\ settled r = true.
Proof.
  induction fuel as [|fuel IH]; intros n r H; cbn [poll] in H; [discriminate H|].
  destruct (results n) as [s|] eqn:E.
  - destruct (pending s) eqn:Hp; [now apply (IH (S n))|].
    injection H as <-. exists n. split; [exact E|]. cbn. now rewrite Hp.
  - injection H as <-. exists n. now split.
Qed.

(** X27: [extract_text_from_image] returns exactly when the read request
    fails or some [get_read_result] raises or gives a status other than
    [running] and [not_started]: the loop has no bound of its own, and for
    a service that goes on answering [running] it never ends. *)
Theorem extract_text_returns_iff (o : ocr_obs) :
  (exists fuel text, extract_text_from_image fuel o = Some text)
  <-> (forall operation_location, read_in_stream o = Some operation_location ->
         exists n, settled (get_read_result o
                              (last_piece (py_split (chars "/") operation_location)) n)
                   = true).
Proof.
  unfold extract_text_from_image. split.
  - intros (fuel & text & H) loc Hloc. rewrite Hloc in H.
    destruct (poll fuel _ 0) as [r|] eqn:E; [|discriminate H].
    apply poll_settled in E as (m & <- & Hs). now exists m.
  - intros H. destruct (read_in_stream o) as [loc|]; [|now exists 0%nat, failed_to_read].
    destruct (H loc eq_refl) as [n Hn].
    destruct (poll_returns _ n 0%nat Hn) as [r Hr].
    exists (S n). rewrite Hr.
    destruct r as [[]|]; try (now eexists).
    destruct (read_results o); now eexists.
Qed.

Lemma extract_text_returns_iff_witness :
  exists fuel text,
    extract_text_from_image fuel (answers_after 3 succeeded [[chars "12 + 7"]]) = Some text.
Proof.
  apply (proj2 (extract_text_returns_iff _)).
  intros loc _. exists 3%nat. reflexivity.
Defined.

(** X28: when the service never reports [succeeded], the text that
    [extract_text_from_image] returns is its sentence of failure, and
    [solve_expression] answers that sentence with an error text that the
    retry controller takes as a failure to parse. *)
Theorem unread_image_is_parse_failure (fuel : nat) (o : ocr_obs) (text : str) :
  extract_text_from_image fuel o = Some text ->
  (forall operation_id n, get_read_result o operation_id n <> Some succeeded) ->
  text = failed_to_read /\ is_parse_failure (solve_expression text) = true.
Proof.
  unfold extract_text_from_image. intros H Hnever.
  assert (Ht : text = failed_to_read).
  { destruct (read_in_stream o) as [loc|]; [|now injection H].
    destruct (poll fuel _ 0) as [r|] eqn:E; [|discriminate H].
    destruct r as [[]|]; try (now injection H).
    apply poll_settled in E as (m & E & _). now apply Hnever in E. }
  split; [exact Ht|]. subst text. reflexivity.
Qed.

Lemma unread_image_is_parse_failure_witness :
  is_parse_failure (solve_expression failed_to_read) = true.
Proof.
  refine (proj2 (unread_image_is_parse_failure 5 (answers_after 2 failed []) _ eq_refl _)).
  intros id n. cbv [answers_after get_read_result].
  destruct (n <? 2)%nat; discriminate.
Defined.

End OcrMore.
